(** * rust-mc-status-server: a shallow embedding of the protocol engine

    The crates modelled here are [varint] (src/varint/src/lib.rs) and the
    [statusserver] binary (src/statusserver/src/{player,packets,main}.rs).

    Representation choices:
    - a byte is a [Z] in [0, 256); an [i32] is a [Z] in [-2^31, 2^31) and
      every Rust operation that can leave that range is wrapped by [to_i32];
    - a Rust [String] / [&str] is the list of its Unicode scalar values
      ([rstring]); [len()] is the length of its UTF-8 encoding and
      [as_bytes()] that encoding;
    - a stream ([TcpStream] or an in-memory [&[u8]]) is a list of [chunk]s:
      a byte, or a failed read (e.g. the 5 s timeout); the end of the list is
      end of stream, where [read] returns [Ok(0)];
    - the whole per-connection state is threaded explicitly through a small
      state/error monad [M]; a panic ([unwrap], arithmetic overflow checks)
      and a loop that never exits are outcomes of their own;
    - the build profile matters in exactly one place, the [<<] of
      [decode_stream]: with overflow checks (debug) a shift by 32 or more
      panics, without them (release) the amount is masked to 5 bits.  The
      flag [overflow_checks] selects the profile. *)

From Stdlib Require Import String Ascii ZArith List Bool Lia RelationClasses.
Import ListNotations.
Open Scope Z_scope.

(** ** Machine integers and strings *)

Definition to_i32 (z : Z) : Z :=
  let u := z mod 2 ^ 32 in if u <? 2 ^ 31 then u else u - 2 ^ 32.

Definition to_u16 (z : Z) : Z := z mod 2 ^ 16.

(** A Rust string: its Unicode scalar values. *)
Definition rstring := list Z.

(** A string literal of the source (all of them are ASCII). *)
Definition str (s : string) : rstring :=
  map (fun a => Z.of_nat (nat_of_ascii a)) (list_ascii_of_string s).

(** UTF-8 encoding of one scalar value and of a string ([as_bytes]). *)
Definition utf8_char (c : Z) : list Z :=
  if c <? 128 then [c]
  else if c <? 2048 then [192 + c / 64; 128 + c mod 64]
  else if c <? 65536 then [224 + c / 4096; 128 + (c / 64) mod 64; 128 + c mod 64]
  else [240 + c / 262144; 128 + (c / 4096) mod 64; 128 + (c / 64) mod 64;
        128 + c mod 64].

Definition as_bytes (s : rstring) : list Z := flat_map utf8_char s.

(** [str::len]: the length in bytes. *)
Definition rlen (s : rstring) : Z := Z.of_nat (length (as_bytes s)).

(** [str::encode_utf16]. *)
Definition utf16_char (c : Z) : list Z :=
  if c <? 65536 then [c]
  else [55296 + (c - 65536) / 1024; 56320 + (c - 65536) mod 1024].

Definition encode_utf16 (s : rstring) : list Z := flat_map utf16_char s.

Definition is_cont (b : Z) : bool := (128 <=? b) && (b <? 192).

(** [String::from_utf8] / [str::from_utf8]: decode, rejecting overlong
    forms, surrogates and values above U+10FFFF. *)
Fixpoint from_utf8 (bs : list Z) : option rstring :=
  match bs with
  | [] => Some []
  | b0 :: r0 =>
    if b0 <? 128 then option_map (cons b0) (from_utf8 r0)
    else if (194 <=? b0) && (b0 <? 224) then
      match r0 with
      | b1 :: r1 =>
        if is_cont b1 then option_map (cons ((b0 - 192) * 64 + (b1 - 128))) (from_utf8 r1)
        else None
      | _ => None
      end
    else if (224 <=? b0) && (b0 <? 240) then
      match r0 with
      | b1 :: b2 :: r2 =>
        let c := (b0 - 224) * 4096 + (b1 - 128) * 64 + (b2 - 128) in
        if is_cont b1 && is_cont b2 && (2048 <=? c)
           && negb ((55296 <=? c) && (c <? 57344))
        then option_map (cons c) (from_utf8 r2) else None
      | _ => None
      end
    else if (240 <=? b0) && (b0 <? 245) then
      match r0 with
      | b1 :: b2 :: b3 :: r3 =>
        let c := (b0 - 240) * 262144 + (b1 - 128) * 4096 + (b2 - 128) * 64
                 + (b3 - 128) in
        if is_cont b1 && is_cont b2 && is_cont b3 && (65536 <=? c) && (c <? 1114112)
        then option_map (cons c) (from_utf8 r3) else None
      | _ => None
      end
    else None
  end.

(** [String::from_utf16]: unpaired surrogates are rejected. *)
Fixpoint from_utf16 (us : list Z) : option rstring :=
  match us with
  | [] => Some []
  | u :: r =>
    if (55296 <=? u) && (u <? 56320) then
      match r with
      | u' :: r' =>
        if (56320 <=? u') && (u' <? 57344)
        then option_map (cons (65536 + (u - 55296) * 1024 + (u' - 56320))) (from_utf16 r')
        else None
      | [] => None
      end
    else if (56320 <=? u) && (u <? 57344) then None
    else option_map (cons u) (from_utf16 r)
  end.

(** Decimal rendering of an integer ([Display] for [u16] and [i32]). *)
Fixpoint digits_aux (fuel : nat) (n : Z) (acc : rstring) : rstring :=
  match fuel with
  | O => acc
  | S f =>
    let acc' := (48 + n mod 10) :: acc in
    if n <? 10 then acc' else digits_aux f (n / 10) acc'
  end.

Definition show_Z (z : Z) : rstring :=
  if z <? 0 then 45 :: digits_aux 40 (- z) [] else digits_aux 40 z [].

(** Big-endian byte images ([to_be_bytes], [write_u16::<BigEndian>] ...). *)
Fixpoint be_bytes (n : nat) (z : Z) : list Z :=
  match n with
  | O => []
  | S k => be_bytes k (z / 256) ++ [z mod 256]
  end.

Fixpoint of_be (bs : list Z) (acc : Z) : Z :=
  match bs with [] => acc | b :: r => of_be r (acc * 256 + b) end.

(** ** Streams, the connection and the error type *)

(** [std::io::ErrorKind]s that occur on this code's paths. *)
Inductive io_error :=
| TimedOut | ConnectionReset | BrokenPipe | NotConnected | UnexpectedEof.

(** One step of a stream: a byte, or a [read] that fails. *)
Inductive chunk := CByte (b : Z) | CErr (e : io_error).

(** A [TcpStream]: what the peer will send, what has been written to it, and
    whether writes and [shutdown] succeed. *)
Record transport := mkTransport {
  t_in : list chunk;
  t_out : list Z;
  t_write_ok : bool;
  t_connected : bool;
  t_shut : bool
}.

(** [player::ConnectionState] ([#[repr(u8)]]). *)
Inductive ConnectionState := HANDSHAKING | STATUS | LOGIN | TRANSFER.

Definition state_eqb (a b : ConnectionState) : bool :=
  match a, b with
  | HANDSHAKING, HANDSHAKING | STATUS, STATUS | LOGIN, LOGIN
  | TRANSFER, TRANSFER => true
  | _, _ => false
  end.

(** [impl TryFrom<u8> for ConnectionState]; the error carries the byte. *)
Definition ConnectionState_try_from (value : Z) : option ConnectionState :=
  if value =? 1 then Some STATUS
  else if value =? 2 then Some LOGIN
  else if value =? 3 then Some TRANSFER
  else None.

(** [player::HandshakeInfo]. *)
Record HandshakeInfo := mkHandshakeInfo {
  protocol : Z;
  server_addr : rstring;
  server_port : Z
}.

(** [player::Player]; [addr] only feeds log lines and is left out. *)
Record Player := mkPlayer {
  connection : transport;
  state : ConnectionState;
  handshake_info : option HandshakeInfo
}.

(** [Player::new]. *)
Definition Player_new (c : transport) : Player :=
  mkPlayer c HANDSHAKING None.

(** [packets::PacketError]; the payloads of the UTF error variants are only
    shown in log lines. *)
Inductive PacketError :=
| IOError (e : io_error)
| FromUtf8Error
| Utf8Error
| FromUtf16Error
| DataError (bytes : list Z)
| ClosedError.

(** ** The state/error monad *)

(** What a call does: return, return an [Err], panic, or never return. *)
Inductive outcome (A : Type) :=
| Ok (a : A)
| Err (e : PacketError)
| Panic
| Diverge.
Arguments Ok {A} a.
Arguments Err {A} e.
Arguments Panic {A}.
Arguments Diverge {A}.

(** The state a handler works on: the packet buffer it parses (the
    [&mut &[u8]] of [handle_packet]) and the player. *)
Record St := mkSt { st_pkt : list chunk; st_player : Player }.

Definition M (A : Type) := St -> outcome A * St.

Definition ret {A} (a : A) : M A := fun s => (Ok a, s).

Definition bind {A B} (m : M A) (k : A -> M B) : M B :=
  fun s =>
    match m s with
    | (Ok a, s') => k a s'
    | (Err e, s') => (Err e, s')
    | (Panic, s') => (Panic, s')
    | (Diverge, s') => (Diverge, s')
    end.

Definition throw {A} (e : PacketError) : M A := fun s => (Err e, s).
Definition panic {A} : M A := fun s => (Panic, s).
Definition diverge {A} : M A := fun s => (Diverge, s).

Notation "x <- m ;; k" := (bind m (fun x => k))
  (at level 61, m at next level, right associativity).
Notation "m ;; k" := (bind m (fun _ => k))
  (at level 61, right associativity).

Definition get_player : M Player := fun s => (Ok (st_player s), s).
Definition put_player (p : Player) : M unit :=
  fun s => (Ok tt, mkSt (st_pkt s) p).

(** [Result::unwrap]: an [Err] becomes a panic. *)
Definition unwrap {A} (m : M A) : M A :=
  fun s => match m s with (Err _, s') => (Panic, s') | r => r end.

(** Run [m] on the in-memory buffer [buf] ([&mut buf.as_slice()]); the slice
    is a local of the caller and is dropped afterwards. *)
Definition with_packet {A} (buf : list chunk) (m : M A) : M A :=
  fun s => let (r, s') := m (mkSt buf (st_player s)) in (r, mkSt (st_pkt s) (st_player s')).

(** The two [Read] instances of the code: the packet buffer and the socket. *)
Inductive src := Pkt | Conn.

Definition set_in (t : transport) (l : list chunk) : transport :=
  mkTransport l (t_out t) (t_write_ok t) (t_connected t) (t_shut t).

Definition set_conn (p : Player) (t : transport) : Player :=
  mkPlayer t (state p) (handshake_info p).

Definition get_stream (sr : src) (s : St) : list chunk :=
  match sr with Pkt => st_pkt s | Conn => t_in (connection (st_player s)) end.

Definition set_stream (sr : src) (l : list chunk) (s : St) : St :=
  match sr with
  | Pkt => mkSt l (st_player s)
  | Conn => mkSt (st_pkt s) (set_conn (st_player s) (set_in (connection (st_player s)) l))
  end.

(** [read] into a one-byte buffer: [Some b] for [Ok(1)], [None] for
    [Ok(0)] at end of stream. *)
Definition read_byte (sr : src) : M (option Z) :=
  fun s =>
    match get_stream sr s with
    | [] => (Ok None, s)
    | CByte b :: r => (Ok (Some b), set_stream sr r s)
    | CErr e :: r => (Err (IOError e), set_stream sr r s)
    end.

(** [read_exact]: the bytes read before a failure are consumed. *)
Fixpoint take_exact (n : nat) (l : list chunk) : (option io_error * list Z * list chunk) :=
  match n with
  | O => (None, [], l)
  | S k =>
    match l with
    | [] => (Some UnexpectedEof, [], [])
    | CErr e :: r => (Some e, [], r)
    | CByte b :: r =>
      let '(e, bs, r') := take_exact k r in (e, b :: bs, r')
    end
  end.

Definition read_exact (sr : src) (n : nat) : M (list Z) :=
  fun s =>
    match take_exact n (get_stream sr s) with
    | (None, bs, r) => (Ok bs, set_stream sr r s)
    | (Some e, _, r) => (Err (IOError e), set_stream sr r s)
    end.

(** [ReadBytesExt::read_u8] / [read_u16::<BigEndian>] / ... *)
Definition read_be (sr : src) (n : nat) : M Z :=
  bs <- read_exact sr n ;; ret (of_be bs 0).

(** [write] on the socket: the whole buffer, or an I/O error. *)
Definition write_conn (bs : list Z) : M unit :=
  fun s =>
    let p := st_player s in
    let t := connection p in
    if t_write_ok t then
      (Ok tt, mkSt (st_pkt s)
                 (set_conn p (mkTransport (t_in t) (t_out t ++ bs) true (t_connected t) (t_shut t))))
    else (Err (IOError BrokenPipe), s).

(** [TcpStream::shutdown(Shutdown::Both)]. *)
Definition shutdown_both : M unit :=
  fun s =>
    let p := st_player s in
    let t := connection p in
    if t_connected t then
      (Ok tt, mkSt (st_pkt s)
                 (set_conn p (mkTransport (t_in t) (t_out t) (t_write_ok t) (t_connected t) true)))
    else (Err (IOError NotConnected), s).

(** ** The [varint] crate *)

Section Varint.

(** The build profile: [true] when arithmetic overflow checks are on. *)
Variable overflow_checks : bool.

(** The [loop] of [decode_stream]: [shift] is the [u8], [result] the [i32],
    [buf] the one-byte buffer, which keeps its value when [read] returns
    [Ok(0)].  [fuel] only bounds the model: [decode_stream] gives it more
    than any run that stops can use, so running out of it is the loop
    never exiting. *)
Fixpoint decode_loop (sr : src) (fuel : nat) (shift result buf : Z) : M Z :=
  match fuel with
  | O => diverge
  | S f =>
    r <- read_byte sr ;;
    let i := match r with Some b => b | None => buf end in
    if overflow_checks && (32 <=? shift) then panic
    else
      let result := Z.lor result (to_i32 (Z.shiftl (Z.land i 127) (shift mod 32))) in
      if overflow_checks && (256 <=? shift + 7) then panic
      else
        let shift := (shift + 7) mod 256 in
        if Z.land i 128 =? 0 then ret result
        else decode_loop sr f shift result i
  end.

Definition decode_stream (sr : src) : M Z :=
  fun s => decode_loop sr (length (get_stream sr s) + 7) 0 0 0 s.

End Varint.

(** The [loop] of [encode]: [cur >> 7] on an [i32] is an arithmetic shift.
    [None] is a loop that does not stop (see [encode_loop_negative]). *)
Fixpoint encode_loop (fuel : nat) (cur : Z) : option (list Z) :=
  match fuel with
  | O => None
  | S f =>
    let b := Z.land cur 127 in
    let cur := Z.shiftr cur 7 in
    if cur =? 0 then Some [b]
    else option_map (cons (Z.lor b 128)) (encode_loop f cur)
  end.

(** Five rounds cover every run of the loop that stops (0 <= n < 2^35). *)
Definition encode (n : Z) : option (list Z) := encode_loop 5 n.

(** The encoder the spec describes (section 4.1), to compare [encode] with:
    [n] read as a 32-bit unsigned pattern and shifted logically. *)
Fixpoint varint_spec_loop (fuel : nat) (u : Z) : list Z :=
  match fuel with
  | O => []
  | S f =>
    let b := Z.land u 127 in
    let u := Z.shiftr u 7 in
    if u =? 0 then [b] else Z.lor b 128 :: varint_spec_loop f u
  end.

Definition varint_spec_encode (n : Z) : list Z := varint_spec_loop 5 (n mod 2 ^ 32).

Definition bytes (l : list Z) : list chunk := map CByte l.

(** Encoding inside a handler: a non-stopping [encode] never returns. *)
Definition encode_m (n : Z) : M (list Z) :=
  match encode n with Some l => ret l | None => diverge end.

(** ** The [json] crate, as far as the server uses it

    [json::parse] (the JSON grammar: surrounding whitespace allowed, nothing
    after the value), [JsonValue::dump] (compact output) and the [Display]
    behind [to_string].  A number keeps the crate's sign / mantissa / decimal
    exponent.  Objects keep insertion order, and [insert] of a present key
    replaces its value in place. *)

Local Set Warnings "-register-all".
Inductive JsonValue :=
| JNull
| JBoolean (b : bool)
| JNumber (positive : bool) (mantissa : Z) (exponent : Z)
| JString (s : rstring)
| JArray (l : list JsonValue)
| JObject (l : list (rstring * JsonValue)).

(** [From<u16>] / [From<i32>] for [JsonValue]. *)
Definition json_int (z : Z) : JsonValue := JNumber (0 <=? z) (Z.abs z) 0.

Fixpoint obj_insert (k : rstring) (v : JsonValue) (l : list (rstring * JsonValue))
  : list (rstring * JsonValue) :=
  match l with
  | [] => [(k, v)]
  | (k', v') :: r =>
    if list_eq_dec Z.eq_dec k k' then (k, v) :: r else (k', v') :: obj_insert k v r
  end.

Definition is_ws (c : Z) : bool := (c =? 32) || (c =? 9) || (c =? 10) || (c =? 13).

Fixpoint skip_ws (s : rstring) : rstring :=
  match s with c :: r => if is_ws c then skip_ws r else s | [] => [] end.

Definition is_digit (c : Z) : bool := (48 <=? c) && (c <=? 57).

Definition hex_val (c : Z) : option Z :=
  if is_digit c then Some (c - 48)
  else if (97 <=? c) && (c <=? 102) then Some (c - 87)
  else if (65 <=? c) && (c <=? 70) then Some (c - 55)
  else None.

Definition hex4 (s : rstring) : option (Z * rstring) :=
  match s with
  | a :: b :: c :: d :: r =>
    match hex_val a, hex_val b, hex_val c, hex_val d with
    | Some a, Some b, Some c, Some d => Some (((a * 16 + b) * 16 + c) * 16 + d, r)
    | _, _, _, _ => None
    end
  | _ => None
  end.

(** The body of a string literal, after its opening quote. *)
Fixpoint parse_string_body (fuel : nat) (s : rstring) (acc : rstring)
  : option (rstring * rstring) :=
  match fuel with
  | O => None
  | S f =>
    match s with
    | [] => None
    | c :: r =>
      if c =? 34 then Some (rev acc, r)
      else if c =? 92 then
        match r with
        | [] => None
        | e :: r' =>
          if e =? 117 then
            match hex4 r' with
            | None => None
            | Some (u, r'') =>
              if (55296 <=? u) && (u <? 56320) then
                match r'' with
                | 92 :: 117 :: r3 =>
                  match hex4 r3 with
                  | Some (u', r4) =>
                    if (56320 <=? u') && (u' <? 57344)
                    then parse_string_body f r4
                           ((65536 + (u - 55296) * 1024 + (u' - 56320)) :: acc)
                    else None
                  | None => None
                  end
                | _ => None
                end
              else if (56320 <=? u) && (u <? 57344) then None
              else parse_string_body f r'' (u :: acc)
            end
          else
            let esc :=
              if e =? 34 then Some 34 else if e =? 92 then Some 92
              else if e =? 47 then Some 47 else if e =? 98 then Some 8
              else if e =? 102 then Some 12 else if e =? 110 then Some 10
              else if e =? 114 then Some 13 else if e =? 116 then Some 9
              else None in
            match esc with
            | Some x => parse_string_body f r' (x :: acc)
            | None => None
            end
        end
      else if c <? 32 then None
      else parse_string_body f r (c :: acc)
    end
  end.

Fixpoint take_digits (s : rstring) : rstring * rstring :=
  match s with
  | c :: r => if is_digit c then let (d, r') := take_digits r in (c :: d, r') else ([], s)
  | [] => ([], [])
  end.

Definition digits_value (ds : rstring) : Z :=
  fold_left (fun acc d => acc * 10 + (d - 48)) ds 0.

(** A number literal: [-]? ([0] | [1-9][0-9]* ) ([.][0-9]+)? ([eE][+-]?[0-9]+)? *)
Definition parse_number (s : rstring) : option (JsonValue * rstring) :=
  let '(neg, s1) := match s with 45 :: r => (true, r) | _ => (false, s) end in
  let int :=
    match s1 with
    | 48 :: r => Some ([48], r)
    | c :: _ => if is_digit c then Some (take_digits s1) else None
    | [] => None
    end in
  match int with
  | None => None
  | Some (ids, s2) =>
    let frac :=
      match s2 with
      | 46 :: r => let (fds, r') := take_digits r in
                   match fds with [] => None | _ => Some (fds, r') end
      | _ => Some ([], s2)
      end in
    match frac with
    | None => None
    | Some (fds, s3) =>
      let ex :=
        match s3 with
        | e :: r =>
          if (e =? 101) || (e =? 69) then
            let '(sg, r1) := match r with
                             | 45 :: r1 => (-1, r1) | 43 :: r1 => (1, r1) | _ => (1, r) end in
            let (eds, r2) := take_digits r1 in
            match eds with [] => None | _ => Some (sg * digits_value eds, r2) end
          else Some (0, s3)
        | [] => Some (0, s3)
        end in
      match ex with
      | None => None
      | Some (e, s4) =>
        Some (JNumber (negb neg) (digits_value (ids ++ fds)) (e - Z.of_nat (length fds)), s4)
      end
    end
  end.

Fixpoint parse_value (fuel : nat) (s : rstring) : option (JsonValue * rstring) :=
  match fuel with
  | O => None
  | S f =>
    match skip_ws s with
    | [] => None
    | c :: r =>
      if c =? 34 then
        match parse_string_body (S (length r)) r [] with
        | Some (str, r') => Some (JString str, r')
        | None => None
        end
      else if c =? 91 then
        match skip_ws r with
        | 93 :: r' => Some (JArray [], r')
        | r0 =>
          (fix items (g : nat) (s : rstring) (acc : list JsonValue) :=
             match g with
             | O => None
             | S g' =>
               match parse_value f s with
               | None => None
               | Some (v, s') =>
                 match skip_ws s' with
                 | 44 :: s'' => items g' s'' (v :: acc)
                 | 93 :: s'' => Some (JArray (rev (v :: acc)), s'')
                 | _ => None
                 end
               end
             end) (S (length r0)) r0 []
        end
      else if c =? 123 then
        match skip_ws r with
        | 125 :: r' => Some (JObject [], r')
        | r0 =>
          (fix members (g : nat) (s : rstring) (acc : list (rstring * JsonValue)) :=
             match g with
             | O => None
             | S g' =>
               match skip_ws s with
               | 34 :: s1 =>
                 match parse_string_body (S (length s1)) s1 [] with
                 | None => None
                 | Some (k, s2) =>
                   match skip_ws s2 with
                   | 58 :: s3 =>
                     match parse_value f s3 with
                     | None => None
                     | Some (v, s4) =>
                       match skip_ws s4 with
                       | 44 :: s5 => members g' s5 (obj_insert k v acc)
                       | 125 :: s5 => Some (JObject (obj_insert k v acc), s5)
                       | _ => None
                       end
                     end
                   | _ => None
                   end
                 end
               | _ => None
               end
             end) (S (length r0)) r0 []
        end
      else
        match c :: r with
        | 116 :: 114 :: 117 :: 101 :: r' => Some (JBoolean true, r')
        | 102 :: 97 :: 108 :: 115 :: 101 :: r' => Some (JBoolean false, r')
        | 110 :: 117 :: 108 :: 108 :: r' => Some (JNull, r')
        | _ => parse_number (c :: r)
        end
    end
  end.

(** [json::parse]. *)
Definition json_parse (s : rstring) : option JsonValue :=
  match parse_value (S (length s)) s with
  | Some (v, r) => match skip_ws r with [] => Some v | _ => None end
  | None => None
  end.

Definition hexdig (d : Z) : Z := if d <? 10 then 48 + d else 87 + d.

(** The escapes of the crate's generator. *)
Definition escape_char (c : Z) : rstring :=
  if c =? 34 then [92; 34] else if c =? 92 then [92; 92]
  else if c =? 8 then [92; 98] else if c =? 9 then [92; 116]
  else if c =? 10 then [92; 110] else if c =? 12 then [92; 102]
  else if c =? 13 then [92; 114]
  else if c <? 32 then [92; 117; 48; 48; hexdig (c / 16); hexdig (c mod 16)]
  else [c].

Definition dump_string (s : rstring) : rstring := 34 :: flat_map escape_char s ++ [34].

(** Integers (exponent 0), the only numbers the server itself builds, are
    printed as the crate prints them; a parsed number with a non-zero
    exponent is printed as mantissa [e] exponent, the same value in another
    layout than the crate's. *)
Definition dump_number (pos : bool) (m e : Z) : rstring :=
  (if pos then [] else [45]) ++ (if e =? 0 then show_Z m else show_Z m ++ [101] ++ show_Z e).

Fixpoint join (l : list rstring) : rstring :=
  match l with [] => [] | [x] => x | x :: r => x ++ 44 :: join r end.

(** [JsonValue::dump]. *)
Fixpoint json_dump (v : JsonValue) : rstring :=
  match v with
  | JNull => str "null"
  | JBoolean true => str "true"
  | JBoolean false => str "false"
  | JNumber pos m e => dump_number pos m e
  | JString s => dump_string s
  | JArray l => 91 :: join (map json_dump l) ++ [93]
  | JObject kvs =>
    123 :: join (map (fun kv => dump_string (fst kv) ++ 58 :: json_dump (snd kv)) kvs) ++ [125]
  end.

(** [impl Display for JsonValue] ([to_string]): a string is written as its
    bare text, every other value as [dump] writes it. *)
Definition json_to_string (v : JsonValue) : rstring :=
  match v with JString s => s | _ => json_dump v end.

(** ** Server data ([packets.rs]) *)

(** [packets::PlayerListEntry]; a UUID is its 128-bit value. *)
Record PlayerListEntry := mkPlayerListEntry {
  name : rstring;
  uuid : option Z
}.

Definition DEFAULT_UUID : Z := 0.

Fixpoint nibbles (n : nat) (z : Z) : list Z :=
  match n with O => [] | S k => nibbles k (z / 16) ++ [z mod 16] end.

(** [Uuid::to_string]: lower-case hyphenated form. *)
Definition uuid_to_string (u : Z) : rstring :=
  let h := map hexdig (nibbles 32 u) in
  firstn 8 h ++ [45] ++ firstn 4 (skipn 8 h) ++ [45] ++ firstn 4 (skipn 12 h) ++ [45]
  ++ firstn 4 (skipn 16 h) ++ [45] ++ skipn 20 h.

(** [impl From<PlayerListEntry> for JsonValue]. *)
Definition PlayerListEntry_to_json (e : PlayerListEntry) : JsonValue :=
  JObject [(str "name", JString (name e));
           (str "id", JString (uuid_to_string
                                 (match uuid e with Some u => u | None => DEFAULT_UUID end)))].

(** [packets::ServerConfig]; its [protocol] field is [cfg_protocol] here,
    as [HandshakeInfo] already has a [protocol]. *)
Record ServerConfig := mkServerConfig {
  version : rstring;
  cfg_protocol : option Z;
  online_players : Z;
  max_players : Z;
  player_list : list PlayerListEntry;
  motd : rstring;
  kick_message : rstring
}.

(** [packets::ServerInfo]: [icon] is the base64 text without its prefix. *)
Record ServerInfo := mkServerInfo {
  config : ServerConfig;
  icon : option rstring
}.

(** The [object!] of [make_status_response]. *)
Definition status_object (version : rstring) (protocol maxplr players : Z)
    (playerlist : list PlayerListEntry) (motd : rstring) (secure : bool)
    (icon : option rstring) : JsonValue :=
  let motd := match json_parse motd with Some v => v | None => JString motd end in
  let icon := match icon with
              | Some i => Some (str "data:image/png;base64," ++ i)
              | None => None
              end in
  JObject
    [(str "version", JObject [(str "name", JString version); (str "protocol", json_int protocol)]);
     (str "players", JObject [(str "max", json_int maxplr); (str "online", json_int players);
                              (str "sample", JArray (map PlayerListEntry_to_json playerlist))]);
     (str "description", motd);
     (str "favicon", match icon with Some i => JString i | None => JNull end);
     (str "enforcesSecureChat", JBoolean secure)].

(** [make_status_response]. *)
Definition make_status_response version protocol maxplr players playerlist motd secure icon
  : rstring :=
  json_to_string (status_object version protocol maxplr players playerlist motd secure icon).

(** ** Packet handlers *)

(** [send_packet]. *)
Definition send_packet (packet_id : Z) (data : list Z) : M unit :=
  pid <- encode_m packet_id ;;
  total <- encode_m (to_i32 (Z.of_nat (length pid + length data))) ;;
  write_conn (total ++ pid ++ data).

(** [handle_ping]. *)
Definition handle_ping : M unit :=
  pong <- read_be Pkt 8 ;;
  send_packet 1 (be_bytes 8 pong).

(** The protocol number [handle_status] reports. *)
Definition status_protocol (info : ServerInfo) (p : Player) : Z :=
  match cfg_protocol (config info) with
  | Some pr => pr
  | None => match handshake_info p with Some h => protocol h | None => 127 end
  end.

(** The tail of [handle_status]: the JSON text behind its varint length, as
    packet 0. *)
Definition send_status_text (response : rstring) : M unit :=
  let response := as_bytes response in
  full_data <- encode_m (to_i32 (Z.of_nat (length response))) ;;
  send_packet 0 (full_data ++ response).

(** [handle_status]: the request body is not read. *)
Definition handle_status (info : ServerInfo) : M unit :=
  p <- get_player ;;
  let c := config info in
  send_status_text
    (make_status_response (version c) (status_protocol info p) (max_players c)
       (online_players c) (player_list c) (motd c) false (icon info)).

(** The kick text of [handle_login]. *)
Definition login_kick_text (kick : rstring) : rstring :=
  match json_parse kick with Some v => json_to_string v | None => kick end.

Section Handlers.

Variable overflow_checks : bool.
Variable info : ServerInfo.

Definition decode : src -> M Z := decode_stream overflow_checks.

(** [handle_handshake].  [strlen as usize] of a negative [i32] is at least
    2^63, and [vec!] of that length panics (capacity overflow). *)
Definition handle_handshake : M unit :=
  protocol_version <- decode Pkt ;;
  strlen <- decode Pkt ;;
  if strlen <? 0 then panic
  else
    strbuf <- read_exact Pkt (Z.to_nat strlen) ;;
    host <- match from_utf8 strbuf with Some h => ret h | None => throw FromUtf8Error end ;;
    port <- read_be Pkt 2 ;;
    intent <- decode Pkt ;;
    match ConnectionState_try_from (intent mod 256) with
    | None => throw (DataError [intent mod 256])
    | Some st =>
      p <- get_player ;;
      put_player (mkPlayer (connection p) st
                    (Some (mkHandshakeInfo (protocol_version mod 2 ^ 16) host port)))
    end.

(** [handle_login]. *)
Definition handle_login : M unit :=
  name_len <- decode Pkt ;;
  if (name_len <=? 0) || (16 <? name_len) then
    shutdown_both ;;
    throw (DataError (be_bytes 4 name_len))
  else
    namebuf <- read_exact Pkt (Z.to_nat name_len) ;;
    _ <- match from_utf8 namebuf with Some n => ret n | None => throw Utf8Error end ;;
    _ <- read_be Pkt 16 ;;
    let kick_message := login_kick_text (kick_message (config info)) in
    total_data <- encode_m (to_i32 (rlen kick_message)) ;;
    send_packet 0 (total_data ++ as_bytes kick_message).

(** [handle_status_login]: packet 0 in [TRANSFER] is only logged. *)
Definition handle_status_login : M unit :=
  p <- get_player ;;
  match state p with
  | HANDSHAKING => handle_handshake
  | STATUS => handle_status info
  | LOGIN => handle_login
  | TRANSFER => ret tt
  end.

(** [Player::handle_packet]: other packet ids are only logged. *)
Definition handle_packet : M unit :=
  packet_id <- decode Pkt ;;
  if packet_id =? 0 then handle_status_login
  else if packet_id =? 1 then handle_ping
  else ret tt.

Fixpoint read_u16s (n : nat) : M (list Z) :=
  match n with
  | O => ret []
  | S k => u <- read_be Conn 2 ;; us <- read_u16s k ;; ret (u :: us)
  end.

(** [Player::read_utf16_string]. *)
Definition read_utf16_string : M rstring :=
  strlen <- read_be Conn 2 ;;
  if 255 <? strlen then throw (DataError (be_bytes 2 strlen))
  else
    pingstr <- read_u16s (Z.to_nat strlen) ;;
    match from_utf16 pingstr with Some s => ret s | None => throw FromUtf16Error end.

Fixpoint write_u16s (us : list Z) : M unit :=
  match us with
  | [] => ret tt
  | u :: r => write_conn (be_bytes 2 u) ;; write_u16s r
  end.

(** The text after the legacy header. *)
Definition legacy_response (protocol : Z) : rstring :=
  let c := config info in
  show_Z protocol ++ [0] ++ version c ++ [0] ++ motd c ++ [0] ++ show_Z (online_players c)
  ++ [0] ++ show_Z (max_players c) ++ [0].

Definition legacy_header : list Z := [0; 167; 0; 49; 0; 0].

(** [Player::handle_legacy_ping]: the identifier and the ping string are
    only logged when unexpected. *)
Definition handle_legacy_ping : M unit :=
  _ <- read_be Conn 1 ;;
  _ <- read_utf16_string ;;
  _ <- read_be Conn 2 ;;
  protocol <- read_be Conn 1 ;;
  _ <- read_utf16_string ;;
  _ <- read_be Conn 4 ;;
  let protocol := match cfg_protocol (config info) with Some p => p | None => protocol end in
  let response := legacy_response protocol in
  write_conn [255] ;;
  write_conn (be_bytes 2 (to_u16 (rlen response))) ;;
  write_conn legacy_header ;;
  write_u16s (encode_utf16 response).

(** [Player::receive_packet]. *)
Definition receive_packet : M unit :=
  packet_size <- unwrap (decode Conn) ;;
  if packet_size <=? 0 then throw ClosedError
  else if 256 <? packet_size then throw ClosedError
  else
    p <- get_player ;;
    if (packet_size =? 254) && state_eqb (state p) HANDSHAKING then
      handle_legacy_ping ;; ret tt
    else
      buf <- read_exact Conn (Z.to_nat packet_size) ;;
      with_packet (bytes buf) handle_packet ;;
      ret tt.

End Handlers.

(** ** The per-connection task ([main.rs]) *)

(** What [handle_client] ends with. *)
Inductive client_result :=
| ClientOk
| ClientErr (e : PacketError)
| ClientPanic
| ClientDiverge.

(** The [loop] of [handle_client]: [ClosedError] ends it with [Ok(())], any
    other error is returned, a panic unwinds the thread. *)
Fixpoint client_loop (overflow_checks : bool) (info : ServerInfo) (fuel : nat) (s : St)
  : client_result * St :=
  match fuel with
  | O => (ClientDiverge, s)
  | S f =>
    match receive_packet overflow_checks info s with
    | (Ok _, s') => client_loop overflow_checks info f s'
    | (Err ClosedError, s') => (ClientOk, s')
    | (Err e, s') => (ClientErr e, s')
    | (Panic, s') => (ClientPanic, s')
    | (Diverge, s') => (ClientDiverge, s')
    end
  end.

(** [handle_client] on an accepted socket (setting the timeouts succeeds on
    a fresh socket; the configuration lock is taken once).  Every round that
    returns [Ok] consumes input, so the fuel is never the limit. *)
Definition handle_client (overflow_checks : bool) (info : ServerInfo) (t : transport)
  : client_result * St :=
  client_loop overflow_checks info (S (length (t_in t))) (mkSt [] (Player_new t)).

(** The [server_info] the server starts with, before [load_config] and
    [load_icon] replace it. *)
Definition initial_server_info : ServerInfo :=
  mkServerInfo
    (mkServerConfig (str "custom") (Some 127) 0 0 [] (str "A status server")
       (str "Just a status server"))
    None.

(** ** Vocabulary for the statements below *)

(** [JsonValue]'s [obj["key"]] on an object ([None] where the crate gives
    [Null] for a missing key). *)
Definition json_field (k : string) (v : JsonValue) : option JsonValue :=
  match v with
  | JObject kvs =>
    match find (fun kv => if list_eq_dec Z.eq_dec (fst kv) (str k) then true else false) kvs with
    | Some kv => Some (snd kv)
    | None => None
    end
  | _ => None
  end.

(** A path of keys through nested objects. *)
Fixpoint json_path (ks : list string) (v : JsonValue) : option JsonValue :=
  match ks with
  | [] => Some v
  | k :: r => match json_field k v with Some w => json_path r w | None => None end
  end.

(** The number a run of varint bytes stands for: 7 bits per byte, least
    significant group first. *)
Fixpoint varint_value (l : list Z) : Z :=
  match l with [] => 0 | b :: r => Z.land b 127 + 128 * varint_value r end.

(** Reading a hexadecimal digit back, and the 32 digits of a [Uuid]. *)
Definition hexval (c : Z) : Z := if c <? 97 then c - 48 else c - 87.

Definition of_hex (l : list Z) : Z := fold_left (fun acc c => acc * 16 + hexval c) l 0.

Definition uuid_digits (s : rstring) : list Z := filter (fun c => negb (c =? 45)) s.

(** The frame [receive_packet] reads: a varint length, then the packet. *)
Definition packet_frame (p : list Z) : list Z := varint_spec_encode (Z.of_nat (length p)) ++ p.

(** The bytes of a legacy-ping string: its length in UTF-16 units, then the
    units, all big-endian. *)
Definition utf16_field (us : list Z) : list Z :=
  be_bytes 2 (Z.of_nat (length us)) ++ flat_map (be_bytes 2) us.

(** Section 3 of the spec: a connection in [HANDSHAKING] has no
    [HandshakeInfo], one in any other state has one. *)
Definition hs_invariant (p : Player) : Prop :=
  match state p with
  | HANDSHAKING => handshake_info p = None
  | _ => handshake_info p <> None
  end.

(** The players a connection can reach: [Player::new], then any number of
    [receive_packet] calls (whatever their outcome, and whatever snapshot of
    the configuration they read). *)
Inductive reachable (overflow_checks : bool) : Player -> Prop :=
| reach_new : forall t, reachable overflow_checks (Player_new t)
| reach_step : forall info pkt p,
    reachable overflow_checks p ->
    reachable overflow_checks
      (st_player (snd (receive_packet overflow_checks info (mkSt pkt p)))).

(** A computation relates the player before and after it by [R]. *)
Definition preserves (R : Player -> Player -> Prop) {A} (m : M A) : Prop :=
  forall s, R (st_player s) (st_player (snd (m s))).

(** Only the output side of the socket changes (writes, [shutdown]). *)
Definition out_only (p q : Player) : Prop :=
  state q = state p /\ handshake_info q = handshake_info p
  /\ t_in (connection q) = t_in (connection p).

(** State and handshake information are untouched. *)
Definition same_hs (p q : Player) : Prop :=
  state q = state p /\ handshake_info q = handshake_info p.

(** The input still to be read from the socket is untouched. *)
Definition same_input (p q : Player) : Prop :=
  t_in (connection q) = t_in (connection p).

Definition keeps_invariant (p q : Player) : Prop := hs_invariant p -> hs_invariant q.

(** [m] only consumes input from the stream [sr]. *)
Definition stream_only (sr : src) {A} (m : M A) : Prop :=
  forall s, exists l, snd (m s) = set_stream sr l s.

(** * Proofs *)

(** ** Bit-level facts about the varint loops *)
Lemma lor_low_high : forall r x k, 0 <= k -> 0 <= r < 2 ^ k ->
  Z.lor r (x * 2 ^ k) = r + x * 2 ^ k.
Proof.
  intros r x k Hk Hr.
  assert (Hand : Z.land r (x * 2 ^ k) = 0).
  { apply Z.bits_inj'. intros i Hi. rewrite Z.land_spec, Z.testbit_0_l.
    destruct (Z.lt_ge_cases i k) as [Hlt | Hge].
    - rewrite <- Z.shiftl_mul_pow2 by lia. rewrite (Z.shiftl_spec_low x k i) by lia.
      apply Bool.andb_false_r.
    - rewrite <- (Z.mod_small r (2 ^ k)) by lia. rewrite Z.testbit_mod_pow2 by lia.
      replace (i <? k) with false by (symmetry; apply Z.ltb_ge; lia). reflexivity. }
  rewrite <- Z.lxor_lor by exact Hand. rewrite <- Z.add_nocarry_lxor by exact Hand.
  reflexivity.
Qed.

Lemma to_i32_small : forall z, -2 ^ 31 <= z < 2 ^ 31 -> to_i32 z = z.
Proof.
  intros z Hz. unfold to_i32.
  destruct (Z.le_gt_cases 0 z) as [Hp | Hn].
  - rewrite Z.mod_small by lia. replace (z <? 2 ^ 31) with true by (symmetry; apply Z.ltb_lt; lia).
    reflexivity.
  - replace (z mod 2 ^ 32) with (z + 2 ^ 32)
      by (apply Z.mod_unique with (-1); lia).
    replace (z + 2 ^ 32 <? 2 ^ 31) with false by (symmetry; apply Z.ltb_ge; lia). lia.
Qed.

Lemma to_i32_mod : forall z, to_i32 (z mod 2 ^ 32) = to_i32 z.
Proof. intros z. unfold to_i32. rewrite Z.mod_mod by lia. reflexivity. Qed.

Lemma to_i32_mod_id : forall n, -2 ^ 31 <= n < 2 ^ 31 -> to_i32 (n mod 2 ^ 32) = n.
Proof. intros n Hn. rewrite to_i32_mod. apply to_i32_small; exact Hn. Qed.

(** The [<<] step: the high chunk shifted into place wraps like the sum. *)
Lemma lor_shift_chunk : forall r b j, 0 <= j <= 4 -> 0 <= r < 2 ^ (7 * j) -> 0 <= b ->
  r + b * 2 ^ (7 * j) < 2 ^ 32 ->
  Z.lor r (to_i32 (Z.shiftl b (7 * j))) = to_i32 (r + b * 2 ^ (7 * j)).
Proof.
  intros r b j Hj Hr Hb Hsum.
  rewrite Z.shiftl_mul_pow2 by lia.
  assert (Hpos : 0 <= b * 2 ^ (7 * j)) by (apply Z.mul_nonneg_nonneg; lia).
  assert (H32 : 2 ^ 32 = 2 ^ (32 - 7 * j) * 2 ^ (7 * j))
    by (rewrite <- Z.pow_add_r by lia; f_equal; lia).
  unfold to_i32.
  rewrite (Z.mod_small (b * 2 ^ (7 * j))) by lia.
  rewrite (Z.mod_small (r + b * 2 ^ (7 * j))) by lia.
  destruct (Z.ltb_spec (b * 2 ^ (7 * j)) (2 ^ 31));
  destruct (Z.ltb_spec (r + b * 2 ^ (7 * j)) (2 ^ 31)).
  - apply lor_low_high; lia.
  - (* r < 2^(7j) and both sides differ in the bit 31 only if r crosses it *)
    exfalso.
    assert (H31 : 2 ^ 31 = 2 ^ (31 - 7 * j) * 2 ^ (7 * j))
      by (rewrite <- Z.pow_add_r by lia; f_equal; lia).
    assert (Hpj : 0 < 2 ^ (7 * j)) by (apply Z.pow_pos_nonneg; lia).
    assert (Hbq : b < 2 ^ (31 - 7 * j)).
    { apply (Z.mul_lt_mono_pos_r (2 ^ (7 * j))); lia. }
    nia.
  - lia.
  - replace (b * 2 ^ (7 * j) - 2 ^ 32) with ((b - 2 ^ (32 - 7 * j)) * 2 ^ (7 * j)) by lia.
    rewrite lor_low_high by lia. lia.
Qed.

Lemma get_set_stream : forall sr l s, get_stream sr (set_stream sr l s) = l.
Proof. intros [] l s; reflexivity. Qed.

Lemma set_set_stream : forall sr l1 l2 s, set_stream sr l2 (set_stream sr l1 s) = set_stream sr l2 s.
Proof. intros [] l1 l2 s; reflexivity. Qed.

Lemma read_byte_byte : forall sr b r s, get_stream sr s = CByte b :: r ->
  read_byte sr s = (Ok (Some b), set_stream sr r s).
Proof. intros sr b r s H. unfold read_byte. rewrite H. reflexivity. Qed.

Lemma land_lor_128 : forall b, 0 <= b < 128 -> Z.land (Z.lor b 128) 127 = b /\ Z.land (Z.lor b 128) 128 <> 0.
Proof.
  intros b Hb. split.
  - rewrite Z.land_lor_distr_l. change 127 with (Z.ones 7).
    rewrite !Z.land_ones by lia. rewrite (Z.mod_small b) by lia.
    change (128 mod 2 ^ 7) with 0. apply Z.lor_0_r.
  - intros H. assert (Z.testbit (Z.land (Z.lor b 128) 128) 7 = false) by (rewrite H; reflexivity).
    rewrite Z.land_spec, Z.lor_spec in H0. simpl in H0. rewrite Bool.orb_true_r in H0. discriminate.
Qed.

Lemma land_small : forall b, 0 <= b < 128 -> Z.land b 127 = b /\ Z.land b 128 = 0.
Proof.
  intros b Hb. split.
  - change 127 with (Z.ones 7). rewrite Z.land_ones by lia. apply Z.mod_small; lia.
  - apply Z.bits_inj'. intros i Hi. rewrite Z.land_spec, Z.testbit_0_l.
    destruct (Z.eq_dec i 7) as [-> | Hne].
    + rewrite <- (Z.mod_small b (2 ^ 7)) by lia. rewrite Z.testbit_mod_pow2 by lia. reflexivity.
    + assert (Z.testbit 128 i = false).
      { change 128 with (2 ^ 7). rewrite Z.pow2_bits_eqb by lia.
        apply Z.eqb_neq; lia. }
      rewrite H. apply Bool.andb_false_r.
Qed.

Lemma decode_loop_spec : forall ovf sr m j r v fuel buf rest s,
  (0 < m)%nat -> 0 <= j <= 4 -> 0 <= r < 2 ^ (7 * j) ->
  0 <= v < 2 ^ (7 * Z.of_nat m) -> r + v * 2 ^ (7 * j) < 2 ^ 32 ->
  (length (varint_spec_loop m v) <= fuel)%nat ->
  get_stream sr s = bytes (varint_spec_loop m v) ++ rest ->
  decode_loop ovf sr fuel (7 * j) r buf s
  = (Ok (to_i32 (r + v * 2 ^ (7 * j))), set_stream sr rest s).
Proof.
  intros ovf sr m. induction m as [| m IH]; intros j r v fuel buf rest s Hm Hj Hr Hv Hsum Hf Hs.
  { lia. }
  assert (Hpj : 0 < 2 ^ (7 * j)) by (apply Z.pow_pos_nonneg; lia).
  assert (Hb : 0 <= Z.land v 127 < 128).
  { change 127 with (Z.ones 7). rewrite Z.land_ones by lia. apply Z.mod_pos_bound; lia. }
  assert (Hdiv : v = Z.land v 127 + 128 * Z.shiftr v 7).
  { change 127 with (Z.ones 7). rewrite Z.land_ones, Z.shiftr_div_pow2 by lia.
    pose proof (Z.div_mod v (2 ^ 7)). lia. }
  simpl varint_spec_loop in *.
  destruct fuel as [| fuel]; [destruct (Z.shiftr v 7 =? 0); simpl in Hf; lia |].
  cbn [decode_loop].
  assert (Hshift_ok : (ovf && (32 <=? 7 * j))%bool = false).
  { destruct ovf; [apply Z.leb_gt; lia | reflexivity]. }
  assert (Hshift_ok2 : (ovf && (256 <=? 7 * j + 7))%bool = false).
  { destruct ovf; [apply Z.leb_gt; lia | reflexivity]. }
  destruct (Z.eqb_spec (Z.shiftr v 7) 0) as [Hz | Hnz].
  - simpl in Hs. unfold bind. rewrite (read_byte_byte _ _ _ _ Hs).
    rewrite Hshift_ok, Hshift_ok2.
    destruct (land_small _ Hb) as [H1 H2]. rewrite H1, H2, Z.eqb_refl.
    rewrite Z.mod_small by lia.
    unfold ret. f_equal. f_equal.
    rewrite lor_shift_chunk by lia. f_equal. lia.
  - simpl in Hs. unfold bind. rewrite (read_byte_byte _ _ _ _ Hs).
    rewrite Hshift_ok, Hshift_ok2.
    destruct (land_lor_128 _ Hb) as [H1 H2]. rewrite H1.
    destruct (Z.eqb_spec (Z.land (Z.lor (Z.land v 127) 128) 128) 0) as [E | _]; [contradiction |].
    assert (Hv7 : 1 <= Z.shiftr v 7) by (rewrite Z.shiftr_div_pow2 by lia;
      pose proof (Z.shiftr_nonneg v 7); rewrite Z.shiftr_div_pow2 in * by lia; lia).
    assert (Hj3 : j <= 3).
    { destruct (Z.le_gt_cases j 3); [assumption | exfalso].
      assert (j = 4) by lia. subst j. nia. }
    rewrite (Z.mod_small (7 * j) 32) by lia.
    rewrite (Z.mod_small (7 * j + 7) 256) by lia.
    replace (7 * j + 7) with (7 * (j + 1)) by lia.
    rewrite lor_shift_chunk by nia.
    assert (Hpj1 : 2 ^ (7 * (j + 1)) = 2 ^ (7 * j) * 128)
      by (replace (7 * (j + 1)) with (7 * j + 7) by lia; rewrite Z.pow_add_r by lia; reflexivity).
    rewrite to_i32_small by nia.
    assert (Hm0 : (0 < m)%nat).
    { destruct m; [simpl in Hv; lia | lia]. }
    rewrite (IH (j + 1) (r + Z.land v 127 * 2 ^ (7 * j)) (Z.shiftr v 7) fuel
               (Z.lor (Z.land v 127) 128) rest (set_stream sr (bytes (varint_spec_loop m (Z.shiftr v 7)) ++ rest) s)).
    + rewrite set_set_stream. f_equal. f_equal. f_equal. rewrite Hpj1. nia.
    + exact Hm0.
    + lia.
    + rewrite Hpj1. nia.
    + split; [lia |]. rewrite Z.shiftr_div_pow2 by lia.
      apply Z.div_lt_upper_bound; [lia |].
      replace (2 ^ 7 * 2 ^ (7 * Z.of_nat m)) with (2 ^ (7 * Z.of_nat (S m))); [lia |].
      rewrite <- Z.pow_add_r by lia. f_equal. lia.
    + rewrite Hpj1. nia.
    + simpl in Hf. lia.
    + apply get_set_stream.
Qed.

(** ** Varint round trips and the lengths [decode_stream] reads *)

Lemma decode_spec_encode : forall ovf sr n rest s, -2 ^ 31 <= n < 2 ^ 31 ->
  get_stream sr s = bytes (varint_spec_encode n) ++ rest ->
  decode_stream ovf sr s = (Ok n, set_stream sr rest s).
Proof.
  intros ovf sr n rest s Hn Hs. unfold decode_stream.
  pose proof (Z.mod_pos_bound n (2 ^ 32)) as Hu.
  pose proof (decode_loop_spec ovf sr 5 0 0 (n mod 2 ^ 32) (length (get_stream sr s) + 7) 0 rest s)
    as H.
  replace (7 * 0) with 0 in H by reflexivity.
  rewrite H; clear H.
  - rewrite Z.mul_1_r, Z.add_0_l, to_i32_mod_id by lia. reflexivity.
  - lia.
  - lia.
  - simpl. lia.
  - simpl. lia.
  - simpl. lia.
  - rewrite Hs. unfold bytes. rewrite length_app, length_map. unfold varint_spec_encode. lia.
  - exact Hs.
Qed.

Lemma encode_loop_spec : forall m v, (0 < m)%nat -> 0 <= v < 2 ^ (7 * Z.of_nat m) ->
  encode_loop m v = Some (varint_spec_loop m v).
Proof.
  induction m as [| m IH]; intros v Hm Hv; [lia |].
  simpl. destruct (Z.eqb_spec (Z.shiftr v 7) 0) as [Hz | Hnz]; [reflexivity |].
  assert (Hv7 : 0 <= Z.shiftr v 7 < 2 ^ (7 * Z.of_nat m)).
  { rewrite Z.shiftr_div_pow2 by lia. split; [apply Z.div_pos; lia |].
    apply Z.div_lt_upper_bound; [lia |].
    replace (2 ^ 7 * 2 ^ (7 * Z.of_nat m)) with (2 ^ (7 * Z.of_nat (S m))); [lia |].
    rewrite <- Z.pow_add_r by lia. f_equal. lia. }
  destruct m as [| m].
  - exfalso. simpl in Hv7. lia.
  - rewrite IH by lia. reflexivity.
Qed.

Lemma encode_nonneg : forall n, 0 <= n < 2 ^ 31 -> encode n = Some (varint_spec_encode n).
Proof.
  intros n Hn. unfold encode, varint_spec_encode.
  rewrite Z.mod_small by lia. apply encode_loop_spec; simpl; lia.
Qed.

Lemma encode_loop_negative : forall fuel n, n < 0 -> encode_loop fuel n = None.
Proof.
  induction fuel as [| fuel IH]; intros n Hn; [reflexivity |].
  simpl. assert (Hs : Z.shiftr n 7 < 0) by (apply Z.shiftr_neg; lia).
  destruct (Z.eqb_spec (Z.shiftr n 7) 0) as [E | _]; [lia |].
  rewrite IH by exact Hs. reflexivity.
Qed.

(** The round trip of section 8, property 1, on the values [encode] returns. *)
Lemma decode_encode_nonneg : forall ovf sr n l rest s, 0 <= n < 2 ^ 31 ->
  encode n = Some l -> get_stream sr s = bytes l ++ rest ->
  decode_stream ovf sr s = (Ok n, set_stream sr rest s).
Proof.
  intros ovf sr n l rest s Hn He Hs. rewrite encode_nonneg in He by exact Hn.
  injection He as <-. apply decode_spec_encode; [lia | exact Hs].
Qed.

Lemma cont_land : forall b, 128 <= b < 256 -> Z.land b 128 <> 0.
Proof.
  intros b Hb H.
  assert (Ht : Z.testbit b 7 = true).
  { apply Z.testbit_true; [lia |]. change (2 ^ 7) with 128.
    replace (b / 128) with 1; [reflexivity |].
    apply Z.div_unique with (b - 128); lia. }
  assert (Z.testbit (Z.land b 128) 7 = false) by (rewrite H; reflexivity).
  rewrite Z.land_spec, Ht in H0. discriminate.
Qed.

Lemma read_byte_eof : forall sr s, get_stream sr s = [] -> read_byte sr s = (Ok None, s).
Proof. intros sr s H. unfold read_byte. rewrite H. reflexivity. Qed.

Lemma decode_loop_debug_panics : forall sr cs j fuel result buf rest s,
  Forall (fun b => 128 <= b < 256) cs -> (length cs + j = 6)%nat -> (j <= 5)%nat ->
  (length cs <= fuel)%nat -> get_stream sr s = bytes cs ++ rest ->
  fst (decode_loop true sr fuel (7 * Z.of_nat j) result buf s) = Panic.
Proof.
  intros sr cs. induction cs as [| b cs IH]; intros j fuel result buf rest s Hc Hl Hj5 Hf Hs.
  { simpl in Hl. lia. }
  inversion Hc as [| ? ? Hb Hcs]; subst.
  destruct fuel as [| fuel]; [simpl in Hf; lia |].
  cbn [decode_loop]. unfold bind. simpl in Hs. rewrite (read_byte_byte _ _ _ _ Hs).
  simpl in Hl.
  destruct (Nat.eq_dec j 5) as [-> | Hj].
  - reflexivity.
  - replace (true && (32 <=? 7 * Z.of_nat j))%bool with false
      by (symmetry; apply Z.leb_gt; lia).
    replace (true && (256 <=? 7 * Z.of_nat j + 7))%bool with false
      by (symmetry; apply Z.leb_gt; lia).
    destruct (Z.eqb_spec (Z.land b 128) 0) as [E | _]; [exfalso; exact (cont_land b Hb E) |].
    rewrite (Z.mod_small (7 * Z.of_nat j + 7) 256) by lia.
    replace (7 * Z.of_nat j + 7) with (7 * Z.of_nat (S j)) by lia.
    apply (IH (S j) fuel _ b rest); [exact Hcs | lia | lia | simpl in Hf; lia |].
    apply get_set_stream.
Qed.

Lemma decode_loop_release_no_error : forall sr fuel shift result buf s,
  (forall c, In c (get_stream sr s) -> exists b, c = CByte b) ->
  match fst (decode_loop false sr fuel shift result buf s) with
  | Err _ | Panic => False
  | _ => True
  end.
Proof.
  intros sr fuel. induction fuel as [| fuel IH]; intros shift result buf s Hs; [exact I |].
  cbn [decode_loop]. unfold bind.
  destruct (get_stream sr s) as [| c r] eqn:E.
  - rewrite (read_byte_eof _ _ E). simpl.
    destruct (Z.land buf 128 =? 0); [exact I |]. apply IH. rewrite E. intros c [].
  - destruct (Hs c (or_introl eq_refl)) as [b ->].
    rewrite (read_byte_byte _ _ _ _ E). simpl.
    destruct (Z.land b 128 =? 0); [exact I |]. apply IH.
    rewrite get_set_stream. intros c' Hc'. apply Hs. right. exact Hc'.
Qed.

Lemma decode_loop_no_error : forall ovf sr fuel shift result buf s,
  (forall c, In c (get_stream sr s) -> exists b, c = CByte b) ->
  match fst (decode_loop ovf sr fuel shift result buf s) with
  | Err _ => False
  | _ => True
  end.
Proof.
  intros ovf sr fuel. induction fuel as [| fuel IH]; intros shift result buf s Hs; [exact I |].
  cbn [decode_loop]. unfold bind.
  destruct (get_stream sr s) as [| c r] eqn:E.
  - rewrite (read_byte_eof _ _ E). cbv beta iota.
    destruct (ovf && (32 <=? shift))%bool; [exact I |].
    destruct (ovf && (256 <=? shift + 7))%bool; [exact I |].
    destruct (Z.land buf 128 =? 0); [exact I |]. apply IH. rewrite E. intros c [].
  - destruct (Hs c (or_introl eq_refl)) as [b ->].
    rewrite (read_byte_byte _ _ _ _ E). cbv beta iota.
    destruct (ovf && (32 <=? shift))%bool; [exact I |].
    destruct (ovf && (256 <=? shift + 7))%bool; [exact I |].
    destruct (Z.land b 128 =? 0); [exact I |]. apply IH.
    rewrite get_set_stream. intros c' Hc'. apply Hs. right. exact Hc'.
Qed.

Lemma decode_loop_release_stops : forall sr cs t fuel shift result buf rest s,
  Forall (fun b => 128 <= b < 256) cs -> 0 <= t < 128 -> (length cs < fuel)%nat ->
  get_stream sr s = bytes (cs ++ [t]) ++ rest ->
  exists v, decode_loop false sr fuel shift result buf s = (Ok v, set_stream sr rest s).
Proof.
  intros sr cs. induction cs as [| b cs IH]; intros t fuel shift result buf rest s Hc Ht Hf Hs;
    (destruct fuel as [| fuel]; [simpl in Hf; lia |]); cbn [decode_loop]; unfold bind;
    simpl in Hs; rewrite (read_byte_byte _ _ _ _ Hs); simpl.
  - destruct (land_small t Ht) as [_ ->]. simpl. eexists. reflexivity.
  - inversion Hc as [| ? ? Hb Hcs]; subst.
    destruct (Z.eqb_spec (Z.land b 128) 0) as [E | _]; [exfalso; exact (cont_land b Hb E) |].
    destruct (IH t fuel ((shift + 7) mod 256)
                (Z.lor result (to_i32 (Z.shiftl (Z.land b 127) (shift mod 32)))) b rest
                (set_stream sr (bytes (cs ++ [t]) ++ rest) s)) as [v Hv];
      [exact Hcs | exact Ht | simpl in Hf; lia | apply get_set_stream |].
    exists v. rewrite Hv, set_set_stream. reflexivity.
Qed.

Lemma decode_loop_release_eof : forall sr cs fuel shift result buf s,
  Forall (fun b => 128 <= b < 256) cs -> (cs = [] -> 128 <= buf < 256) ->
  get_stream sr s = bytes cs ->
  fst (decode_loop false sr fuel shift result buf s) = Diverge.
Proof.
  intros sr cs fuel. revert cs. induction fuel as [| fuel IH]; intros cs shift result buf s Hc Hbuf Hs;
    [reflexivity |].
  cbn [decode_loop]. unfold bind.
  destruct cs as [| b cs].
  - rewrite (read_byte_eof _ _ Hs). simpl.
    destruct (Z.eqb_spec (Z.land buf 128) 0) as [E | _];
      [exfalso; exact (cont_land buf (Hbuf eq_refl) E) |].
    apply (IH []); [constructor | exact Hbuf | exact Hs].
  - inversion Hc as [| ? ? Hb Hcs]; subst.
    simpl in Hs. rewrite (read_byte_byte _ _ _ _ Hs). simpl.
    destruct (Z.eqb_spec (Z.land b 128) 0) as [E | _]; [exfalso; exact (cont_land b Hb E) |].
    apply (IH cs); [exact Hcs | intros _; exact Hb | apply get_set_stream].
Qed.

Lemma varint_spec_loop_length : forall m v, (0 < m)%nat ->
  (1 <= length (varint_spec_loop m v) <= m)%nat.
Proof.
  induction m as [| m IH]; intros v Hm; [lia |].
  simpl. destruct (Z.shiftr v 7 =? 0); simpl; [lia |].
  destruct m as [| m]; [simpl; lia |]. specialize (IH (Z.shiftr v 7)). lia.
Qed.

(** ** Streams: what a read leaves behind *)

Lemma set_stream_get : forall sr s, set_stream sr (get_stream sr s) s = s.
Proof. intros [] [pkt [[] st hs]]; reflexivity. Qed.

Lemma stream_only_bind : forall sr A B (m : M A) (k : A -> M B),
  stream_only sr m -> (forall a, stream_only sr (k a)) -> stream_only sr (bind m k).
Proof.
  intros sr A B m k Hm Hk s. unfold bind. destruct (Hm s) as [l Hl].
  destruct (m s) as [[a | e | | ] s']; simpl in Hl; subst s'; try (exists l; reflexivity).
  destruct (Hk a (set_stream sr l s)) as [l' Hl']. exists l'. rewrite Hl', set_set_stream.
  reflexivity.
Qed.

Lemma stream_only_ret : forall sr A (a : A), stream_only sr (ret a).
Proof. intros sr A a s. exists (get_stream sr s). symmetry. apply set_stream_get. Qed.

Lemma stream_only_throw : forall sr A e, stream_only sr (@throw A e).
Proof. intros sr A e s. exists (get_stream sr s). symmetry. apply set_stream_get. Qed.

Lemma stream_only_panic : forall sr A, stream_only sr (@panic A).
Proof. intros sr A s. exists (get_stream sr s). symmetry. apply set_stream_get. Qed.

Lemma stream_only_diverge : forall sr A, stream_only sr (@diverge A).
Proof. intros sr A s. exists (get_stream sr s). symmetry. apply set_stream_get. Qed.

Lemma stream_only_read_byte : forall sr, stream_only sr (read_byte sr).
Proof.
  intros sr s. unfold read_byte.
  destruct (get_stream sr s) as [| [b | e] r] eqn:E; simpl.
  - exists []. rewrite <- E. symmetry. apply set_stream_get.
  - exists r. reflexivity.
  - exists r. reflexivity.
Qed.

Lemma stream_only_read_exact : forall sr n, stream_only sr (read_exact sr n).
Proof.
  intros sr n s. unfold read_exact.
  destruct (take_exact n (get_stream sr s)) as [[[e |] bs] r]; exists r; reflexivity.
Qed.

Lemma stream_only_read_be : forall sr n, stream_only sr (read_be sr n).
Proof.
  intros sr n. apply stream_only_bind; [apply stream_only_read_exact | intros; apply stream_only_ret].
Qed.

Lemma stream_only_decode_loop : forall ovf sr fuel shift result buf,
  stream_only sr (decode_loop ovf sr fuel shift result buf).
Proof.
  intros ovf sr fuel. induction fuel as [| fuel IH]; intros shift result buf;
    [apply stream_only_diverge |].
  cbn [decode_loop]. apply stream_only_bind; [apply stream_only_read_byte | intros r].
  destruct (_ && _)%bool; [apply stream_only_panic |].
  destruct (_ && _)%bool; [apply stream_only_panic |].
  destruct (_ =? 0); [apply stream_only_ret | apply IH].
Qed.

Lemma stream_only_decode : forall ovf sr, stream_only sr (decode_stream ovf sr).
Proof.
  intros ovf sr s. unfold decode_stream. apply stream_only_decode_loop.
Qed.

Lemma stream_only_read_u16s : forall n, stream_only Conn (read_u16s n).
Proof.
  induction n as [| n IH]; [apply stream_only_ret |]. simpl.
  apply stream_only_bind; [apply stream_only_read_be | intros u].
  apply stream_only_bind; [apply IH | intros us; apply stream_only_ret].
Qed.

Lemma stream_only_read_utf16_string : stream_only Conn read_utf16_string.
Proof.
  unfold read_utf16_string. apply stream_only_bind; [apply stream_only_read_be | intros n].
  destruct (255 <? n); [apply stream_only_throw |].
  apply stream_only_bind; [apply stream_only_read_u16s | intros us].
  destruct (from_utf16 us); [apply stream_only_ret | apply stream_only_throw].
Qed.

(** ** Relations a computation keeps between the player before and after *)

Section Preserves.

Context (R : Player -> Player -> Prop) `{PreOrder Player R}.

Lemma preserves_bind : forall A B (m : M A) (k : A -> M B),
  preserves R m -> (forall a, preserves R (k a)) -> preserves R (bind m k).
Proof.
  intros A B m k Hm Hk s. unfold bind. specialize (Hm s).
  destruct (m s) as [[a | e | | ] s'] eqn:E; simpl in *; try exact Hm.
  etransitivity; [exact Hm | apply Hk].
Qed.

Lemma preserves_ret : forall A (a : A), preserves R (ret a).
Proof. intros A a s. reflexivity. Qed.

Lemma preserves_throw : forall A e, preserves R (@throw A e).
Proof. intros A e s. reflexivity. Qed.

Lemma preserves_panic : forall A, preserves R (@panic A).
Proof. intros A s. reflexivity. Qed.

Lemma preserves_diverge : forall A, preserves R (@diverge A).
Proof. intros A s. reflexivity. Qed.

Lemma preserves_get_player : preserves R get_player.
Proof. intros s. reflexivity. Qed.

Lemma preserves_get_player_bind : forall B (k : Player -> M B),
  (forall s, R (st_player s) (st_player (snd (k (st_player s) s)))) ->
  preserves R (bind get_player k).
Proof. intros B k Hk s. apply Hk. Qed.

Lemma preserves_unwrap : forall A (m : M A), preserves R m -> preserves R (unwrap m).
Proof.
  intros A m Hm s. unfold unwrap. specialize (Hm s).
  destruct (m s) as [[a | e | | ] s']; exact Hm.
Qed.

Lemma preserves_with_packet : forall A buf (m : M A),
  preserves R m -> preserves R (with_packet buf m).
Proof.
  intros A buf m Hm s. unfold with_packet. specialize (Hm (mkSt buf (st_player s))).
  destruct (m (mkSt buf (st_player s))) as [r s']. exact Hm.
Qed.

Lemma preserves_encode_m : forall n, preserves R (encode_m n).
Proof.
  intros n. unfold encode_m. destruct (encode n); [apply preserves_ret | apply preserves_diverge].
Qed.

Lemma preserves_pkt : forall A (m : M A), stream_only Pkt m -> preserves R m.
Proof. intros A m Hm s. destruct (Hm s) as [l ->]. reflexivity. Qed.

Lemma preserves_conn : forall A (m : M A),
  (forall p l, R p (set_conn p (set_in (connection p) l))) ->
  stream_only Conn m -> preserves R m.
Proof. intros A m HR Hm s. destruct (Hm s) as [l ->]. apply HR. Qed.

Hypothesis R_out : forall p t, t_in t = t_in (connection p) -> R p (set_conn p t).

Lemma preserves_write_conn : forall bs, preserves R (write_conn bs).
Proof.
  intros bs s. unfold write_conn. destruct (t_write_ok _); simpl; [| reflexivity].
  apply R_out. reflexivity.
Qed.

Lemma preserves_write_u16s : forall us, preserves R (write_u16s us).
Proof.
  induction us as [| u us IH]; [apply preserves_ret |]. simpl.
  apply preserves_bind; [apply preserves_write_conn | intros; apply IH].
Qed.

Lemma preserves_shutdown_both : preserves R shutdown_both.
Proof.
  intros s. unfold shutdown_both. destruct (t_connected _); simpl; [| reflexivity].
  apply R_out. reflexivity.
Qed.

Lemma preserves_send_packet : forall pid data, preserves R (send_packet pid data).
Proof.
  intros pid data. unfold send_packet.
  apply preserves_bind; [apply preserves_encode_m | intros pidb].
  apply preserves_bind; [apply preserves_encode_m | intros tot].
  apply preserves_write_conn.
Qed.

Lemma preserves_handle_ping : preserves R handle_ping.
Proof.
  unfold handle_ping. apply preserves_bind;
    [apply preserves_pkt, stream_only_read_be | intros; apply preserves_send_packet].
Qed.

Lemma preserves_handle_status : forall info, preserves R (handle_status info).
Proof.
  intros info. unfold handle_status, send_status_text.
  apply preserves_bind; [apply preserves_get_player | intros p].
  apply preserves_bind; [apply preserves_encode_m | intros; apply preserves_send_packet].
Qed.

Lemma preserves_handle_login : forall ovf info, preserves R (handle_login ovf info).
Proof.
  intros ovf info. unfold handle_login, decode.
  apply preserves_bind; [apply preserves_pkt, stream_only_decode | intros n].
  destruct (_ || _)%bool.
  - apply preserves_bind; [apply preserves_shutdown_both | intros; apply preserves_throw].
  - apply preserves_bind; [apply preserves_pkt, stream_only_read_exact | intros nb].
    apply preserves_bind; [destruct (from_utf8 nb); [apply preserves_ret | apply preserves_throw] | intros].
    apply preserves_bind; [apply preserves_pkt, stream_only_read_be | intros].
    apply preserves_bind; [apply preserves_encode_m | intros; apply preserves_send_packet].
Qed.

Lemma preserves_handle_handshake : forall ovf,
  (forall p st h, st <> HANDSHAKING -> R p (mkPlayer (connection p) st (Some h))) ->
  preserves R (handle_handshake ovf).
Proof.
  intros ovf Hput. unfold handle_handshake, decode.
  apply preserves_bind; [apply preserves_pkt, stream_only_decode | intros pv].
  apply preserves_bind; [apply preserves_pkt, stream_only_decode | intros n].
  destruct (n <? 0); [apply preserves_panic |].
  apply preserves_bind; [apply preserves_pkt, stream_only_read_exact | intros hb].
  apply preserves_bind; [destruct (from_utf8 hb); [apply preserves_ret | apply preserves_throw] | intros host].
  apply preserves_bind; [apply preserves_pkt, stream_only_read_be | intros port].
  apply preserves_bind; [apply preserves_pkt, stream_only_decode | intros intent].
  destruct (ConnectionState_try_from (intent mod 256)) as [st |] eqn:E; [| apply preserves_throw].
  apply preserves_get_player_bind. intros s. simpl. apply Hput.
  unfold ConnectionState_try_from in E.
  destruct (intent mod 256 =? 1); [injection E as <-; discriminate |].
  destruct (intent mod 256 =? 2); [injection E as <-; discriminate |].
  destruct (intent mod 256 =? 3); [injection E as <-; discriminate | discriminate].
Qed.

Lemma preserves_handle_packet : forall ovf info,
  (forall p st h, st <> HANDSHAKING -> R p (mkPlayer (connection p) st (Some h))) ->
  preserves R (handle_packet ovf info).
Proof.
  intros ovf info Hput. unfold handle_packet, decode.
  apply preserves_bind; [apply preserves_pkt, stream_only_decode | intros pid].
  destruct (pid =? 0).
  - unfold handle_status_login. apply preserves_bind; [apply preserves_get_player | intros p].
    destruct (state p).
    + apply preserves_handle_handshake; exact Hput.
    + apply preserves_handle_status.
    + apply preserves_handle_login.
    + apply preserves_ret.
  - destruct (pid =? 1); [apply preserves_handle_ping | apply preserves_ret].
Qed.

Hypothesis R_in : forall p l, R p (set_conn p (set_in (connection p) l)).

Lemma preserves_handle_legacy_ping : forall info, preserves R (handle_legacy_ping info).
Proof.
  intros info. unfold handle_legacy_ping.
  apply preserves_bind; [apply preserves_conn, stream_only_read_be; exact R_in | intros].
  apply preserves_bind; [apply preserves_conn, stream_only_read_utf16_string; exact R_in | intros].
  apply preserves_bind; [apply preserves_conn, stream_only_read_be; exact R_in | intros].
  apply preserves_bind; [apply preserves_conn, stream_only_read_be; exact R_in | intros].
  apply preserves_bind; [apply preserves_conn, stream_only_read_utf16_string; exact R_in | intros].
  apply preserves_bind; [apply preserves_conn, stream_only_read_be; exact R_in | intros].
  apply preserves_bind; [apply preserves_write_conn | intros].
  apply preserves_bind; [apply preserves_write_conn | intros].
  apply preserves_bind; [apply preserves_write_conn | intros].
  apply preserves_write_u16s.
Qed.

Lemma preserves_receive_packet : forall ovf info,
  (forall p st h, st <> HANDSHAKING -> R p (mkPlayer (connection p) st (Some h))) ->
  preserves R (receive_packet ovf info).
Proof.
  intros ovf info Hput. unfold receive_packet, decode.
  apply preserves_bind;
    [apply preserves_unwrap, preserves_conn, stream_only_decode; exact R_in | intros n].
  destruct (n <=? 0); [apply preserves_throw |].
  destruct (256 <? n); [apply preserves_throw |].
  apply preserves_bind; [apply preserves_get_player | intros p].
  destruct (_ && _)%bool.
  - apply preserves_bind; [apply preserves_handle_legacy_ping | intros; apply preserves_ret].
  - apply preserves_bind; [apply preserves_conn, stream_only_read_exact; exact R_in | intros buf].
    apply preserves_bind; [apply preserves_with_packet, preserves_handle_packet; exact Hput |].
    intros; apply preserves_ret.
Qed.

End Preserves.

#[export] Instance same_hs_preorder : PreOrder same_hs.
Proof.
  split; [intros p; split; reflexivity |].
  intros p q r [H1 H2] [H3 H4]. split; congruence.
Qed.

#[export] Instance same_input_preorder : PreOrder same_input.
Proof. split; [intros p; reflexivity | intros p q r H1 H2; unfold same_input in *; congruence]. Qed.

#[export] Instance keeps_invariant_preorder : PreOrder keeps_invariant.
Proof. split; [intros p H; exact H | intros p q r H1 H2 H; auto]. Qed.

Lemma same_hs_set_conn : forall p t, same_hs p (set_conn p t).
Proof. intros p t. split; reflexivity. Qed.

Lemma keeps_invariant_set_conn : forall p t, keeps_invariant p (set_conn p t).
Proof. intros p t H. exact H. Qed.

Lemma keeps_invariant_handshake : forall p st h, st <> HANDSHAKING ->
  keeps_invariant p (mkPlayer (connection p) st (Some h)).
Proof. intros p st h Hst _. unfold hs_invariant. simpl. destruct st; congruence. Qed.

Lemma same_input_handshake : forall p st h, st <> HANDSHAKING ->
  same_input p (mkPlayer (connection p) st (Some h)).
Proof. intros p st h _. reflexivity. Qed.

Lemma same_input_out : forall p t, t_in t = t_in (connection p) -> same_input p (set_conn p t).
Proof. intros p t H. exact H. Qed.

Lemma receive_packet_keeps_invariant : forall ovf info,
  preserves keeps_invariant (receive_packet ovf info).
Proof.
  intros ovf info. apply preserves_receive_packet.
  - typeclasses eauto.
  - intros p t _. apply keeps_invariant_set_conn.
  - intros p l. apply keeps_invariant_set_conn.
  - apply keeps_invariant_handshake.
Qed.

Lemma handle_legacy_ping_same_hs : forall info, preserves same_hs (handle_legacy_ping info).
Proof.
  intros info. apply preserves_handle_legacy_ping.
  - typeclasses eauto.
  - intros p t _. apply same_hs_set_conn.
  - intros p l. apply same_hs_set_conn.
Qed.

Lemma handle_packet_same_input : forall ovf info, preserves same_input (handle_packet ovf info).
Proof.
  intros ovf info. apply preserves_handle_packet.
  - typeclasses eauto.
  - exact same_input_out.
  - exact same_input_handshake.
Qed.

(** C9: every reachable connection satisfies the handshake invariant, and the legacy
    ping keeps the state and the handshake information as they were. *)
Theorem handshake_info_invariant :
  (forall ovf p, reachable ovf p -> hs_invariant p)
  /\ (forall info s,
        state (st_player (snd (handle_legacy_ping info s))) = state (st_player s)
        /\ handshake_info (st_player (snd (handle_legacy_ping info s)))
           = handshake_info (st_player s)).
Proof.
  split.
  - intros ovf p Hr. induction Hr as [t | info pkt p Hr IH].
    + reflexivity.
    + apply (receive_packet_keeps_invariant ovf info (mkSt pkt p)). exact IH.
  - intros info s. apply handle_legacy_ping_same_hs.
Qed.

Lemma decode_conn_same_hs : forall ovf s,
  same_hs (st_player s) (st_player (snd (decode_stream ovf Conn s))).
Proof.
  intros ovf s. destruct (stream_only_decode ovf Conn s) as [l ->]. apply same_hs_set_conn.
Qed.

Lemma receive_packet_after_length : forall ovf info s L s1,
  decode_stream ovf Conn s = (Ok L, s1) ->
  receive_packet ovf info s =
  (if L <=? 0 then throw ClosedError
   else if 256 <? L then throw ClosedError
   else if (L =? 254) && state_eqb (state (st_player s)) HANDSHAKING then
     handle_legacy_ping info ;; ret tt
   else
     buf <- read_exact Conn (Z.to_nat L) ;;
     with_packet (bytes buf) (handle_packet ovf info) ;;
     ret tt) s1.
Proof.
  intros ovf info s L s1 Hd.
  pose proof (decode_conn_same_hs ovf s) as [Hst _]. rewrite Hd in Hst. simpl in Hst.
  unfold receive_packet, unwrap, bind, decode. rewrite Hd.
  destruct (L <=? 0); [reflexivity |]. destruct (256 <? L); [reflexivity |].
  unfold get_player. rewrite Hst. reflexivity.
Qed.

Lemma take_exact_bytes : forall frame rest,
  take_exact (length frame) (bytes frame ++ rest) = (None, frame, rest).
Proof.
  induction frame as [| b frame IH]; intros rest; [reflexivity |].
  simpl. rewrite IH. reflexivity.
Qed.

Lemma read_exact_bytes : forall sr frame rest s, get_stream sr s = bytes frame ++ rest ->
  read_exact sr (length frame) s = (Ok frame, set_stream sr rest s).
Proof. intros sr frame rest s H. unfold read_exact. rewrite H, take_exact_bytes. reflexivity. Qed.

Lemma receive_packet_ordinary_frame : forall ovf info s L s1,
  decode_stream ovf Conn s = (Ok L, s1) ->
  0 < L <= 256 -> ~ (L = 254 /\ state (st_player s) = HANDSHAKING) ->
  receive_packet ovf info s =
  (buf <- read_exact Conn (Z.to_nat L) ;;
   with_packet (bytes buf) (handle_packet ovf info) ;;
   ret tt) s1.
Proof.
  intros ovf info s L s1 Hd HL Hn. rewrite (receive_packet_after_length ovf info s L s1 Hd).
  replace (L <=? 0) with false by (symmetry; apply Z.leb_gt; lia).
  replace (256 <? L) with false by (symmetry; apply Z.ltb_ge; lia).
  replace ((L =? 254) && state_eqb (state (st_player s)) HANDSHAKING)%bool with false.
  - reflexivity.
  - symmetry. apply Bool.andb_false_iff.
    destruct (Z.eqb_spec L 254) as [-> | ]; [right | left; reflexivity].
    destruct (state (st_player s)); try reflexivity. exfalso. apply Hn. split; reflexivity.
Qed.

(** C3: after the frame length [L] is decoded, [receive_packet] closes on
    [L <= 0] or [L > 256], hands a 254 in [HANDSHAKING] to the legacy ping,
    and otherwise reads [L] bytes and runs [handle_packet] on them. *)
Theorem receive_packet_dispatch : forall ovf info s L s1,
  decode_stream ovf Conn s = (Ok L, s1) ->
  ((L <= 0 \/ 256 < L) -> receive_packet ovf info s = (Err ClosedError, s1))
  /\ (L = 254 -> state (st_player s) = HANDSHAKING ->
      receive_packet ovf info s = (handle_legacy_ping info ;; ret tt) s1)
  /\ (0 < L <= 256 -> ~ (L = 254 /\ state (st_player s) = HANDSHAKING) ->
      receive_packet ovf info s =
      (buf <- read_exact Conn (Z.to_nat L) ;;
       with_packet (bytes buf) (handle_packet ovf info) ;;
       ret tt) s1).
Proof.
  intros ovf info s L s1 Hd. rewrite (receive_packet_after_length ovf info s L s1 Hd).
  split; [| split].
  - intros [H | H].
    + replace (L <=? 0) with true by (symmetry; apply Z.leb_le; lia). reflexivity.
    + replace (L <=? 0) with false by (symmetry; apply Z.leb_gt; lia).
      replace (256 <? L) with true by (symmetry; apply Z.ltb_lt; lia). reflexivity.
  - intros -> Hs. rewrite Hs. reflexivity.
  - intros HL Hn. rewrite <- (receive_packet_after_length ovf info s L s1 Hd).
    apply receive_packet_ordinary_frame; assumption.
Qed.

(** C10: for an ordinary frame of length [L] the next read of the socket
    starts right after the [L] bytes of the frame, and [handle_packet] never
    touches the socket input. *)
Theorem frame_fully_consumed : forall ovf info s L s1 frame rest r s',
  decode_stream ovf Conn s = (Ok L, s1) ->
  0 < L <= 256 -> ~ (L = 254 /\ state (st_player s) = HANDSHAKING) ->
  t_in (connection (st_player s1)) = bytes frame ++ rest ->
  length frame = Z.to_nat L ->
  receive_packet ovf info s = (r, s') ->
  t_in (connection (st_player s')) = rest
  /\ (forall s0, t_in (connection (st_player (snd (handle_packet ovf info s0))))
                 = t_in (connection (st_player s0))).
Proof.
  intros ovf info s L s1 frame rest r s' Hd HL Hn Hin Hlen Hr.
  split; [| intros s0; apply handle_packet_same_input].
  rewrite (receive_packet_ordinary_frame ovf info s L s1 Hd HL Hn) in Hr.
  unfold bind at 1 in Hr. rewrite <- Hlen in Hr.
  rewrite (read_exact_bytes Conn frame rest s1 Hin) in Hr.
  pose proof (preserves_with_packet same_input _ (bytes frame) (handle_packet ovf info)
                (handle_packet_same_input ovf info) (set_stream Conn rest s1)) as Hp.
  unfold bind in Hr.
  destruct (with_packet (bytes frame) (handle_packet ovf info) (set_stream Conn rest s1))
    as [[[] | e | | ] s2]; simpl in Hp; injection Hr as <- <-; exact Hp.
Qed.

Lemma bytes_app : forall a b, bytes (a ++ b) = bytes a ++ bytes b.
Proof. intros a b. apply map_app. Qed.

Lemma of_be_be_bytes_2 : forall z, 0 <= z < 2 ^ 16 -> of_be (be_bytes 2 z) 0 = z.
Proof.
  intros z Hz. simpl. rewrite (Z.mod_small (z / 256)) by (split; [apply Z.div_pos | apply Z.div_lt_upper_bound]; lia).
  pose proof (Z.div_mod z 256). lia.
Qed.

Lemma read_be_bytes : forall sr frame rest s, get_stream sr s = bytes frame ++ rest ->
  read_be sr (length frame) s = (Ok (of_be frame 0), set_stream sr rest s).
Proof.
  intros sr frame rest s H. unfold read_be, bind. rewrite (read_exact_bytes sr frame rest s H).
  reflexivity.
Qed.

Ltac decode_known n :=
  match goal with
  | |- context [decode_stream ?ovf Pkt ?s] =>
    rewrite (decode_spec_encode ovf Pkt n _ s ltac:(lia) eq_refl)
  end.

Lemma handle_handshake_run : forall ovf pl proto hb host port intent rest,
  -2 ^ 31 <= proto < 2 ^ 31 -> -2 ^ 31 <= intent < 2 ^ 31 ->
  Z.of_nat (length hb) < 2 ^ 31 -> from_utf8 hb = Some host -> 0 <= port < 2 ^ 16 ->
  handle_handshake ovf
    (mkSt (bytes (varint_spec_encode proto ++ varint_spec_encode (Z.of_nat (length hb)) ++ hb
                  ++ be_bytes 2 port ++ varint_spec_encode intent) ++ rest) pl)
  = match ConnectionState_try_from (intent mod 256) with
    | None => (Err (DataError [intent mod 256]), mkSt rest pl)
    | Some st =>
      (Ok tt, mkSt rest (mkPlayer (connection pl) st
                           (Some (mkHandshakeInfo (proto mod 2 ^ 16) host port))))
    end.
Proof.
  intros ovf pl proto hb host port intent rest Hp Hi Hl Hh Hport.
  rewrite !bytes_app, <- !app_assoc.
  unfold handle_handshake, decode, bind at 1.
  decode_known proto. simpl set_stream.
  unfold bind at 1.
  decode_known (Z.of_nat (length hb)).
  simpl set_stream.
  replace (Z.of_nat (length hb) <? 0) with false by (symmetry; apply Z.ltb_ge; lia).
  rewrite Nat2Z.id. unfold bind at 1.
  match goal with
  | |- context [read_exact Pkt _ ?s] => rewrite (read_exact_bytes Pkt hb _ s eq_refl)
  end. simpl set_stream. rewrite Hh.
  unfold bind at 1. unfold ret at 1. unfold bind at 1.
  change 2%nat with (length (be_bytes 2 port)).
  match goal with
  | |- context [read_be Pkt _ ?s] => rewrite (read_be_bytes Pkt (be_bytes 2 port) _ s eq_refl)
  end. simpl set_stream.
  rewrite of_be_be_bytes_2 by exact Hport.
  unfold bind at 1.
  decode_known intent. simpl set_stream.
  destruct (ConnectionState_try_from (intent mod 256)); reflexivity.
Qed.

(** C5 (amended): a handshake in [HANDSHAKING] keeps the intent's low byte
    only: 1, 2 and 3 there give [STATUS], [LOGIN] and [TRANSFER] with the
    handshake's information stored, any other value fails with
    [DataError] of that byte and leaves the player as it was; the error then
    ends the connection's loop. *)
Theorem handshake_intent : forall ovf info pl proto hb host port intent rest,
  state pl = HANDSHAKING ->
  -2 ^ 31 <= proto < 2 ^ 31 -> -2 ^ 31 <= intent < 2 ^ 31 ->
  Z.of_nat (length hb) < 2 ^ 31 -> from_utf8 hb = Some host -> 0 <= port < 2 ^ 16 ->
  let r := handle_packet ovf info
             (mkSt (bytes (0 :: varint_spec_encode proto ++ varint_spec_encode (Z.of_nat (length hb))
                           ++ hb ++ be_bytes 2 port ++ varint_spec_encode intent) ++ rest) pl) in
  let hs := Some (mkHandshakeInfo (proto mod 2 ^ 16) host port) in
  (intent mod 256 = 1 -> r = (Ok tt, mkSt rest (mkPlayer (connection pl) STATUS hs)))
  /\ (intent mod 256 = 2 -> r = (Ok tt, mkSt rest (mkPlayer (connection pl) LOGIN hs)))
  /\ (intent mod 256 = 3 -> r = (Ok tt, mkSt rest (mkPlayer (connection pl) TRANSFER hs)))
  /\ (~ In (intent mod 256) [1; 2; 3] ->
      r = (Err (DataError [intent mod 256]), mkSt rest pl)
      /\ forall fuel s s', receive_packet ovf info s = (Err (DataError [intent mod 256]), s') ->
         client_loop ovf info (S fuel) s = (ClientErr (DataError [intent mod 256]), s')).
Proof.
  intros ovf info pl proto hb host port intent rest Hst Hp Hi Hl Hh Hport r hs.
  assert (Hr : r = match ConnectionState_try_from (intent mod 256) with
                   | None => (Err (DataError [intent mod 256]), mkSt rest pl)
                   | Some st => (Ok tt, mkSt rest (mkPlayer (connection pl) st hs))
                   end).
  { subst r hs. unfold handle_packet, decode. unfold bind at 1. decode_known 0.
    cbv beta iota. rewrite Z.eqb_refl.
    unfold handle_status_login. unfold bind at 1. unfold get_player at 1.
    cbv beta iota. cbn [set_stream st_player st_pkt]. rewrite Hst.
    apply handle_handshake_run; assumption. }
  rewrite Hr. unfold ConnectionState_try_from.
  split; [intros -> | split; [intros -> | split; [intros -> |]]]; try reflexivity.
  intros Hn.
  destruct (Z.eqb_spec (intent mod 256) 1); [exfalso; apply Hn; left; congruence |].
  destruct (Z.eqb_spec (intent mod 256) 2); [exfalso; apply Hn; right; left; congruence |].
  destruct (Z.eqb_spec (intent mod 256) 3); [exfalso; apply Hn; right; right; left; congruence |].
  split; [reflexivity |].
  intros fuel s s' Hrp. simpl. rewrite Hrp. reflexivity.
Qed.

(** C1: on every [i32], [encode] stops with one to five bytes that
    [decode_stream] reads back exactly when the value is not negative; on a
    negative value its loop never stops. *)
Theorem varint_encode_decode : forall ovf sr n, -2 ^ 31 <= n < 2 ^ 31 ->
  (0 <= n -> exists l, encode n = Some l /\ (1 <= length l <= 5)%nat
     /\ forall rest s, get_stream sr s = bytes l ++ rest ->
        decode_stream ovf sr s = (Ok n, set_stream sr rest s))
  /\ (n < 0 -> forall fuel, encode_loop fuel n = None).
Proof.
  intros ovf sr n Hn. split.
  - intros H0. exists (varint_spec_encode n). split; [apply encode_nonneg; lia |]. split.
    + apply varint_spec_loop_length. lia.
    + intros rest s Hs. apply decode_spec_encode; assumption.
  - intros Hneg fuel. apply encode_loop_negative. exact Hneg.
Qed.

Lemma varint_encode_decode_witness : -2 ^ 31 <= -1 < 2 ^ 31 /\ encode_loop 1000 (-1) = None.
Proof.
  split; [lia |]. apply (proj2 (varint_encode_decode false Pkt (-1) ltac:(lia))). lia.
Defined.

(** C4 (amended): [decode_stream] has no length limit and no error of its
    own.  With overflow checks a sixth byte with the continuation bit set
    panics (a shift of 35); without them no byte stream makes it fail, it
    returns at the first byte without the continuation bit however many come
    before it, and never returns when the stream ends after continuation
    bytes.  In both builds it never returns an error on a stream whose reads
    all succeed. *)
Theorem decode_stream_no_length_limit :
  (forall sr cs rest s, Forall (fun b => 128 <= b < 256) cs -> length cs = 6%nat ->
     get_stream sr s = bytes cs ++ rest -> fst (decode_stream true sr s) = Panic)
  /\ (forall sr s, (forall c, In c (get_stream sr s) -> exists b, c = CByte b) ->
     match fst (decode_stream false sr s) with Err _ | Panic => False | _ => True end)
  /\ (forall sr cs t rest s, Forall (fun b => 128 <= b < 256) cs -> 0 <= t < 128 ->
     get_stream sr s = bytes (cs ++ [t]) ++ rest ->
     exists v, decode_stream false sr s = (Ok v, set_stream sr rest s))
  /\ (forall sr cs s, Forall (fun b => 128 <= b < 256) cs -> cs <> [] ->
     get_stream sr s = bytes cs -> fst (decode_stream false sr s) = Diverge)
  /\ (forall ovf sr s, (forall c, In c (get_stream sr s) -> exists b, c = CByte b) ->
     match fst (decode_stream ovf sr s) with Err _ => False | _ => True end).
Proof.
  split; [| split; [| split; [| split]]].
  - intros sr cs rest s Hc Hl Hs. unfold decode_stream.
    apply (decode_loop_debug_panics sr cs 0 _ 0 0 rest s Hc); [lia | lia | | exact Hs].
    rewrite Hs. unfold bytes. rewrite length_app, length_map. lia.
  - intros sr s Hs. unfold decode_stream. apply decode_loop_release_no_error. exact Hs.
  - intros sr cs t rest s Hc Ht Hs. unfold decode_stream.
    apply (decode_loop_release_stops sr cs t); [exact Hc | exact Ht | | exact Hs].
    rewrite Hs. unfold bytes. rewrite length_app, !length_map, length_app. simpl. lia.
  - intros sr cs s Hc Hne Hs. unfold decode_stream.
    apply (decode_loop_release_eof sr cs); [exact Hc | intros E; contradiction | exact Hs].
  - intros ovf sr s Hs. unfold decode_stream. apply decode_loop_no_error. exact Hs.
Qed.

Lemma decode_stream_no_length_limit_witness :
  fst (decode_stream true Pkt
         (mkSt (bytes [128; 128; 128; 128; 128; 128; 0])
            (Player_new (mkTransport [] [] true true false)))) = Panic
  /\ fst (decode_stream false Pkt
            (mkSt (bytes [128; 128; 128; 128; 128; 128])
               (Player_new (mkTransport [] [] true true false)))) = Diverge
  /\ match fst (decode_stream true Pkt
                 (mkSt (bytes [128; 128; 128]) (Player_new (mkTransport [] [] true true false))))
     with Err _ => False | _ => True end.
Proof.
  split; [| split].
  - apply (proj1 decode_stream_no_length_limit Pkt [128; 128; 128; 128; 128; 128] [CByte 0]);
      [repeat constructor; lia | reflexivity | reflexivity].
  - apply (proj1 (proj2 (proj2 (proj2 decode_stream_no_length_limit))) Pkt [128; 128; 128; 128; 128; 128]);
      [repeat constructor; lia | discriminate | reflexivity].
  - apply (proj2 (proj2 (proj2 (proj2 decode_stream_no_length_limit))) true Pkt).
    intros c Hc. destruct Hc as [<- | [<- | [<- | []]]]; eexists; reflexivity.
Defined.

(** C4: the six continuation bytes of the spec's example give no error: a
    panic with overflow checks, a loop that does not return without them. *)
Lemma malformed_varint_counterexample :
  let s := mkSt (bytes [128; 128; 128; 128; 128; 128])
             (Player_new (mkTransport [] [] true true false)) in
  fst (decode_stream true Pkt s) = Panic /\ fst (decode_stream false Pkt s) = Diverge.
Proof. split; vm_compute; reflexivity. Qed.

Lemma decode_stream_read_error : forall ovf sr e rest s, get_stream sr s = CErr e :: rest ->
  decode_stream ovf sr s = (Err (IOError e), set_stream sr rest s).
Proof.
  intros ovf sr e rest s Hs. unfold decode_stream.
  replace (length (get_stream sr s) + 7)%nat with (S (length rest + 7)) by (rewrite Hs; reflexivity).
  cbn [decode_loop]. unfold bind, read_byte. rewrite Hs. reflexivity.
Qed.

(** C8: a read failure (a time-out, a reset connection, ...) while
    [receive_packet] reads the frame length is not returned as an
    [IOError]: [unwrap] panics, and the connection's thread unwinds. *)
Theorem frame_length_read_error_panics : forall ovf info t e rest,
  t_in t = CErr e :: rest ->
  fst (receive_packet ovf info (mkSt [] (Player_new t))) = Panic
  /\ fst (handle_client ovf info t) = ClientPanic.
Proof.
  intros ovf info t e rest Ht.
  assert (H : fst (receive_packet ovf info (mkSt [] (Player_new t))) = Panic).
  { unfold receive_packet, decode, bind, unwrap.
    rewrite (decode_stream_read_error ovf Conn e rest (mkSt [] (Player_new t)) Ht). reflexivity. }
  split; [exact H |].
  unfold handle_client. cbn [client_loop].
  destruct (receive_packet ovf info (mkSt [] (Player_new t))) as [r s'].
  simpl in H. subst r. reflexivity.
Qed.

Lemma frame_length_read_error_panics_witness :
  t_in (mkTransport [CErr TimedOut] [] true true false) = [CErr TimedOut]
  /\ fst (handle_client false initial_server_info (mkTransport [CErr TimedOut] [] true true false))
     = ClientPanic.
Proof.
  split; [reflexivity |].
  apply (frame_length_read_error_panics false initial_server_info _ TimedOut []). reflexivity.
Defined.

(** C7: on the spec's legacy ping example (protocol 47, version "1.8", motd
    "Hi", 0 of 20 players) the length field after [0xFF] is 15, the UTF-8
    length of the text without the header, while 18 UTF-16 units (36 bytes)
    follow it, header included. *)
Theorem legacy_ping_length_field : forall ovf,
  let t := mkTransport
             (bytes ([254; 1; 250; 0; 11] ++ flat_map (fun c => [0; c]) (str "MC|PingHost")
                     ++ [0; 25; 47; 0; 9] ++ flat_map (fun c => [0; c]) (str "localhost")
                     ++ [0; 0; 99; 221]))
             [] true true false in
  let info := mkServerInfo (mkServerConfig (str "1.8") None 0 20 [] (str "Hi") (str "Bye")) None in
  let '(r, s) := receive_packet ovf info (mkSt [] (Player_new t)) in
  let out := t_out (connection (st_player s)) in
  r = Ok tt /\ firstn 3 out = [255; 0; 15] /\ firstn 6 (skipn 3 out) = legacy_header
  /\ length (skipn 3 out) = (2 * 18)%nat.
Proof. intros []; vm_compute; repeat split. Qed.

(** C2: the status response is the compact text of a JSON object whose
    [version.protocol], [description] and [favicon] are as the
    configuration, the handshake and the icon give them. *)
Theorem status_response_fields : forall info pkt pl,
  exists obj,
    handle_status info (mkSt pkt pl) = send_status_text (json_dump obj) (mkSt pkt pl)
    /\ (exists kvs, obj = JObject kvs)
    /\ json_path ["version"; "protocol"]%string obj
       = Some (json_int (match cfg_protocol (config info) with
                         | Some p => p
                         | None => match handshake_info pl with
                                   | Some h => protocol h
                                   | None => 127
                                   end
                         end))
    /\ json_path ["description"]%string obj
       = Some (match json_parse (motd (config info)) with
               | Some v => v
               | None => JString (motd (config info))
               end)
    /\ json_path ["favicon"]%string obj
       = Some (match icon info with
               | Some i => JString (str "data:image/png;base64," ++ i)
               | None => JNull
               end).
Proof.
  intros info pkt pl. eexists. split; [reflexivity |].
  split; [eexists; reflexivity |].
  split; [| split]; [reflexivity | reflexivity |].
  destruct (icon info); reflexivity.
Qed.

(** ** Sending packets and the login *)

Lemma encode_m_ok : forall n s, 0 <= n < 2 ^ 31 -> encode_m n s = (Ok (varint_spec_encode n), s).
Proof. intros n s Hn. unfold encode_m. rewrite encode_nonneg by exact Hn. reflexivity. Qed.

Lemma varint_spec_encode_length : forall n, (1 <= length (varint_spec_encode n) <= 5)%nat.
Proof. intros n. apply varint_spec_loop_length. lia. Qed.

Lemma send_packet_ok : forall pid data s, 0 <= pid < 2 ^ 31 -> Z.of_nat (length data) < 2 ^ 30 ->
  send_packet pid data s
  = write_conn (varint_spec_encode (Z.of_nat (length (varint_spec_encode pid) + length data))
                ++ varint_spec_encode pid ++ data) s.
Proof.
  intros pid data s Hp Hd. unfold send_packet, bind. rewrite encode_m_ok by exact Hp.
  pose proof (varint_spec_encode_length pid).
  rewrite to_i32_small by lia. rewrite encode_m_ok by lia. reflexivity.
Qed.

Lemma handle_login_dispatch : forall ovf info pl rest l,
  state pl = LOGIN ->
  handle_packet ovf info (mkSt (bytes (0 :: l) ++ rest) pl)
  = handle_login ovf info (mkSt (bytes l ++ rest) pl).
Proof.
  intros ovf info pl rest l Hst. unfold handle_packet, decode. unfold bind at 1.
  decode_known 0. cbv beta iota. rewrite Z.eqb_refl.
  unfold handle_status_login. unfold bind at 1. unfold get_player at 1.
  cbv beta iota. cbn [set_stream st_player st_pkt]. rewrite Hst. reflexivity.
Qed.

(** C6: a login start with a name length outside 1..16 shuts the socket
    down and fails with [DataError] of the length's four bytes (or with the
    [IOError] of a failed shutdown); a well-formed one is answered by
    packet 0 carrying [varint(len(s))] and [s], where [s] is
    [login_kick_text] of the kick message: the kick message itself when it is
    not JSON, the [Display] text of the parsed value when it is. *)
Theorem login_response : 
  (forall ovf info pl nl rest, state pl = LOGIN -> -2 ^ 31 <= nl < 2 ^ 31 -> (nl <= 0 \/ 16 < nl) ->
     let c := connection pl in
     handle_packet ovf info (mkSt (bytes (0 :: varint_spec_encode nl) ++ rest) pl)
     = if t_connected c
       then (Err (DataError (be_bytes 4 nl)),
             mkSt rest (set_conn pl (mkTransport (t_in c) (t_out c) (t_write_ok c) (t_connected c) true)))
       else (Err (IOError NotConnected), mkSt rest pl))
  /\ (forall ovf info pl name nm uuid rest,
     state pl = LOGIN -> (1 <= length name <= 16)%nat -> from_utf8 name = Some nm ->
     length uuid = 16%nat -> t_write_ok (connection pl) = true ->
     rlen (login_kick_text (kick_message (config info))) < 2 ^ 20 ->
     let c := connection pl in
     let data := varint_spec_encode (rlen (login_kick_text (kick_message (config info))))
                 ++ as_bytes (login_kick_text (kick_message (config info))) in
     handle_packet ovf info
       (mkSt (bytes (0 :: varint_spec_encode (Z.of_nat (length name)) ++ name ++ uuid) ++ rest) pl)
     = (Ok tt, mkSt rest (set_conn pl (mkTransport (t_in c)
                 (t_out c ++ varint_spec_encode (Z.of_nat (1 + length data)) ++ [0] ++ data)
                 true (t_connected c) (t_shut c)))))
  /\ (forall kick, json_parse kick = None -> login_kick_text kick = kick)
  /\ (forall kick v, json_parse kick = Some v -> login_kick_text kick = json_to_string v).
Proof.
  split; [| split; [| split]].
  - intros ovf info pl nl rest Hst Hnl Hbad c.
    rewrite handle_login_dispatch by exact Hst.
    unfold handle_login, decode. unfold bind at 1. decode_known nl.
    cbv beta iota. cbn [set_stream st_player st_pkt].
    replace ((nl <=? 0) || (16 <? nl))%bool with true
      by (symmetry; apply Bool.orb_true_iff; destruct Hbad;
          [left; apply Z.leb_le | right; apply Z.ltb_lt]; lia).
    unfold bind, shutdown_both. cbn [st_player st_pkt]. subst c.
    destruct (t_connected (connection pl)); reflexivity.
  - intros ovf info pl name nm uuid rest Hst Hl Hn Hu Hw Hk c data.
    rewrite handle_login_dispatch by exact Hst.
    rewrite !bytes_app, <- !app_assoc.
    unfold handle_login, decode. unfold bind at 1. decode_known (Z.of_nat (length name)).
    cbv beta iota. cbn [set_stream st_player st_pkt].
    replace ((Z.of_nat (length name) <=? 0) || (16 <? Z.of_nat (length name)))%bool with false
      by (symmetry; apply Bool.orb_false_iff; split; [apply Z.leb_gt | apply Z.ltb_ge]; lia).
    rewrite Nat2Z.id. unfold bind at 1.
    match goal with
    | |- context [read_exact Pkt _ ?s] => rewrite (read_exact_bytes Pkt name _ s eq_refl)
    end.
    cbv beta iota. cbn [set_stream st_player st_pkt]. rewrite Hn.
    unfold bind at 1. unfold ret at 1. cbv beta iota.
    unfold bind at 1. rewrite <- Hu.
    match goal with
    | |- context [read_be Pkt _ ?s] => rewrite (read_be_bytes Pkt uuid _ s eq_refl)
    end.
    cbv beta iota. cbn [set_stream st_player st_pkt].
    assert (Hr0 : 0 <= rlen (login_kick_text (kick_message (config info)))) by (unfold rlen; lia).
    rewrite to_i32_small by lia.
    unfold bind at 1. rewrite encode_m_ok by lia. cbv beta iota.
    pose proof (varint_spec_encode_length (rlen (login_kick_text (kick_message (config info))))).
    rewrite send_packet_ok.
    + unfold write_conn. cbn [st_player st_pkt]. rewrite Hw.
      change (varint_spec_encode 0) with [0]. subst c data. reflexivity.
    + lia.
    + rewrite length_app. unfold rlen in *. lia.
  - intros kick H. unfold login_kick_text. rewrite H. reflexivity.
  - intros kick v H. unfold login_kick_text. rewrite H. reflexivity.
Qed.

Lemma login_response_witness :
  handle_packet false initial_server_info
    (mkSt (bytes (0 :: varint_spec_encode (Z.of_nat (length (str "Steve"))) ++ str "Steve"
                  ++ repeat 0 16) ++ [])
       (mkPlayer (mkTransport [] [] true true false) LOGIN None))
  = (Ok tt, mkSt [] (mkPlayer (mkTransport [] ([22; 0; 20] ++ str "Just a status server")
                                 true true false) LOGIN None)).
Proof.
  exact (proj1 (proj2 login_response) false initial_server_info
           (mkPlayer (mkTransport [] [] true true false) LOGIN None)
           (str "Steve") (str "Steve") (repeat 0 16) []
           eq_refl ltac:(simpl; lia) eq_refl eq_refl eq_refl ltac:(vm_compute; reflexivity)).
Defined.

(** C5: the intent is cut to its low byte, so an intent of 257 moves the
    connection to [STATUS]. *)
Lemma handshake_intent_257_counterexample :
  let pl := Player_new (mkTransport [] [] true true false) in
  handle_packet false initial_server_info
    (mkSt (bytes ([0] ++ varint_spec_encode 759 ++ [9] ++ str "localhost" ++ [99; 221]
                  ++ varint_spec_encode 257)) pl)
  = (Ok tt, mkSt [] (mkPlayer (connection pl) STATUS
                       (Some (mkHandshakeInfo 759 (str "localhost") 25565)))).
Proof. vm_compute. reflexivity. Qed.

Lemma handshake_intent_witness :
  handle_packet false initial_server_info
    (mkSt (bytes (0 :: varint_spec_encode 759 ++ varint_spec_encode (Z.of_nat (length (str "localhost")))
                  ++ str "localhost" ++ be_bytes 2 25565 ++ varint_spec_encode 4) ++ [])
       (Player_new (mkTransport [] [] true true false)))
  = (Err (DataError [4]), mkSt [] (Player_new (mkTransport [] [] true true false))).
Proof.
  exact (proj1 (proj2 (proj2 (proj2
    (handshake_intent false initial_server_info (Player_new (mkTransport [] [] true true false))
       759 (str "localhost") (str "localhost") 25565 4 [] eq_refl ltac:(lia) ltac:(lia)
       ltac:(simpl; lia) eq_refl ltac:(lia))))
    ltac:(simpl; intuition discriminate))).
Defined.

Lemma receive_packet_dispatch_witness :
  receive_packet false initial_server_info
    (mkSt [] (Player_new (mkTransport (bytes [1; 0]) [] true true false)))
  = (buf <- read_exact Conn (Z.to_nat 1) ;;
     with_packet (bytes buf) (handle_packet false initial_server_info) ;;
     ret tt)
      (set_stream Conn [CByte 0] (mkSt [] (Player_new (mkTransport (bytes [1; 0]) [] true true false)))).
Proof.
  apply (proj2 (proj2 (receive_packet_dispatch false initial_server_info
                         (mkSt [] (Player_new (mkTransport (bytes [1; 0]) [] true true false)))
                         1 _ eq_refl))).
  - lia.
  - intros [H _]. discriminate.
Defined.

Lemma frame_fully_consumed_witness :
  t_in (connection (st_player (snd (receive_packet false initial_server_info
          (mkSt [] (Player_new (mkTransport (bytes [1; 0; 7]) [] true true false))))))) = [CByte 7].
Proof.
  apply (proj1 (frame_fully_consumed false initial_server_info
                  (mkSt [] (Player_new (mkTransport (bytes [1; 0; 7]) [] true true false)))
                  1 _ [0] [CByte 7] _ _ eq_refl ltac:(lia) ltac:(intros [H _]; discriminate)
                  eq_refl eq_refl (surjective_pairing _))).
Defined.

Lemma handshake_info_invariant_witness :
  hs_invariant (st_player (snd (receive_packet false initial_server_info
                 (mkSt [] (Player_new (mkTransport (bytes [1; 0]) [] true true false)))))).
Proof.
  apply (proj1 handshake_info_invariant false).
  apply (reach_step false initial_server_info []).
  apply reach_new.
Defined.

(** ** Further properties: varints, the handlers and whole sessions *)

Lemma lor_128 : forall b, 0 <= b < 128 -> Z.lor b 128 = b + 128.
Proof.
  intros b Hb. change 128 with (1 * 2 ^ 7) at 1. rewrite lor_low_high by lia. lia.
Qed.

Lemma shiftr7_zero : forall v, 0 <= v -> Z.shiftr v 7 = 0 -> v < 128.
Proof.
  intros v Hv H. rewrite Z.shiftr_div_pow2 in H by lia.
  pose proof (Z.div_mod v (2 ^ 7)). pose proof (Z.mod_pos_bound v (2 ^ 7)). 
  change (2 ^ 7) with 128 in *. lia.
Qed.

Lemma varint_spec_loop_shape : forall m v, (0 < m)%nat -> 0 <= v < 2 ^ (7 * Z.of_nat m) ->
  let l := varint_spec_loop m v in
  (exists cs t, l = cs ++ [t] /\ Forall (fun b => 128 <= b < 256) cs /\ 0 <= t < 128)
  /\ varint_value l = v
  /\ v < 2 ^ (7 * Z.of_nat (length l))
  /\ ((1 < length l)%nat -> 2 ^ (7 * (Z.of_nat (length l) - 1)) <= v).
Proof.
  induction m as [| m IH]; intros v Hm Hv; [lia |].
  assert (Hb : 0 <= Z.land v 127 < 128).
  { change 127 with (Z.ones 7). rewrite Z.land_ones by lia. apply Z.mod_pos_bound; lia. }
  assert (Hdiv : v = Z.land v 127 + 128 * Z.shiftr v 7).
  { change 127 with (Z.ones 7). rewrite Z.land_ones, Z.shiftr_div_pow2 by lia.
    pose proof (Z.div_mod v (2 ^ 7)). lia. }
  cbn zeta. simpl varint_spec_loop.
  destruct (Z.eqb_spec (Z.shiftr v 7) 0) as [Hz | Hnz].
  - pose proof (shiftr7_zero v ltac:(lia) Hz).
    destruct (land_small (Z.land v 127) Hb) as [H1 _].
    split; [exists [], (Z.land v 127); repeat split; [constructor | lia | lia] |].
    simpl. rewrite H1. split; [lia |]. split; [change (2 ^ 7) with 128; lia | lia].
  - assert (Hu : 0 <= Z.shiftr v 7 < 2 ^ (7 * Z.of_nat m)).
    { rewrite Z.shiftr_div_pow2 by lia. split; [apply Z.div_pos; lia |].
      apply Z.div_lt_upper_bound; [lia |].
      replace (2 ^ 7 * 2 ^ (7 * Z.of_nat m)) with (2 ^ (7 * Z.of_nat (S m))); [lia |].
      rewrite <- Z.pow_add_r by lia. f_equal. lia. }
    assert (Hm0 : (0 < m)%nat) by (destruct m; [simpl in Hu; lia | lia]).
    destruct (IH (Z.shiftr v 7) Hm0 Hu) as [[cs [t [Hl [Hc Ht]]]] [Hval [Hup Hlow]]].
    cbn zeta in *. set (l' := varint_spec_loop m (Z.shiftr v 7)) in *.
    destruct (land_lor_128 _ Hb) as [H1 _].
    split; [| split; [| split]].
    + exists (Z.lor (Z.land v 127) 128 :: cs), t. rewrite Hl. repeat split; [| lia | lia].
      constructor; [rewrite lor_128 by lia; lia | exact Hc].
    + cbn [varint_value]. rewrite H1, Hval. lia.
    + simpl length. rewrite Nat2Z.inj_succ.
      replace (7 * Z.succ (Z.of_nat (length l'))) with (7 + 7 * Z.of_nat (length l')) by lia.
      rewrite Z.pow_add_r by lia. change (2 ^ 7) with 128. lia.
    + intros _. simpl length. rewrite Nat2Z.inj_succ.
      replace (7 * (Z.succ (Z.of_nat (length l')) - 1)) with (7 * Z.of_nat (length l')) by lia.
      assert (Hge : 2 ^ (7 * (Z.of_nat (length l') - 1)) <= Z.shiftr v 7).
      { destruct (Nat.lt_ge_cases 1 (length l')) as [Hlt | Hge]; [apply Hlow; exact Hlt |].
        assert (length l' = 1%nat).
        { rewrite Hl, length_app in Hge |- *. simpl in *. lia. }
        rewrite H. simpl. lia. }
      assert (Hlen : (1 <= length l')%nat) by (rewrite Hl, length_app; simpl; lia).
      replace (7 * Z.of_nat (length l')) with (7 + 7 * (Z.of_nat (length l') - 1)) by lia.
      rewrite Z.pow_add_r by lia. change (2 ^ 7) with 128. lia.
Qed.

(** [encode] of a non-negative [i32] gives a well-formed varint: continuation
    bytes, then one byte below 128, standing for [n], and no longer than [n]
    needs (a byte for every started group of 7 bits). *)
Theorem encode_well_formed : forall n l, 0 <= n < 2 ^ 31 -> encode n = Some l ->
  (exists cs t, l = cs ++ [t] /\ Forall (fun b => 128 <= b < 256) cs /\ 0 <= t < 128)
  /\ varint_value l = n
  /\ n < 2 ^ (7 * Z.of_nat (length l))
  /\ ((1 < length l)%nat -> 2 ^ (7 * (Z.of_nat (length l) - 1)) <= n).
Proof.
  intros n l Hn He. rewrite encode_nonneg in He by exact Hn. injection He as <-.
  unfold varint_spec_encode. rewrite Z.mod_small by lia.
  apply varint_spec_loop_shape; simpl; lia.
Qed.

Lemma encode_well_formed_witness : encode 300 = Some [172; 2] /\ varint_value [172; 2] = 300.
Proof.
  split; [reflexivity |].
  exact (proj1 (proj2 (encode_well_formed 300 [172; 2] ltac:(lia) eq_refl))).
Defined.

Lemma to_i32_multiple : forall y k, 0 <= k <= 31 -> y mod 2 ^ k = 0 ->
  exists q, to_i32 y = q * 2 ^ k.
Proof.
  intros y k Hk Hy.
  assert (H32 : 2 ^ 32 = 2 ^ (32 - k) * 2 ^ k) by (rewrite <- Z.pow_add_r by lia; f_equal; lia).
  assert (Hu : (y mod 2 ^ 32) mod 2 ^ k = 0).
  { rewrite Z.mod_mod_divide; [exact Hy | exists (2 ^ (32 - k)); exact H32]. }
  pose proof (Z.div_mod (y mod 2 ^ 32) (2 ^ k) ltac:(lia)) as Hd. rewrite Hu in Hd.
  unfold to_i32. destruct (_ <? _).
  - exists ((y mod 2 ^ 32) / 2 ^ k). lia.
  - exists ((y mod 2 ^ 32) / 2 ^ k - 2 ^ (32 - k)). lia.
Qed.

(** The [|] of [decode_stream] with a chunk shifted above the bits set so
    far, on [i32]: the sum, wrapped. *)
Lemma lor_to_i32 : forall r y k, 0 <= k <= 31 -> 0 <= r < 2 ^ k -> y mod 2 ^ k = 0 ->
  Z.lor r (to_i32 y) = to_i32 (r + y).
Proof.
  intros r y k Hk Hr Hy.
  destruct (to_i32_multiple y k Hk Hy) as [q Hq].
  rewrite Hq, lor_low_high by lia. rewrite <- Hq.
  assert (H32 : 2 ^ 32 = 2 ^ (32 - k) * 2 ^ k) by (rewrite <- Z.pow_add_r by lia; f_equal; lia).
  assert (H31 : 2 ^ 31 = 2 ^ (31 - k) * 2 ^ k) by (rewrite <- Z.pow_add_r by lia; f_equal; lia).
  assert (Hu : (y mod 2 ^ 32) mod 2 ^ k = 0).
  { rewrite Z.mod_mod_divide; [exact Hy | exists (2 ^ (32 - k)); exact H32]. }
  pose proof (Z.div_mod (y mod 2 ^ 32) (2 ^ k) ltac:(lia)) as Hd. rewrite Hu, Z.add_0_r in Hd.
  pose proof (Z.mod_pos_bound y (2 ^ 32) ltac:(lia)) as Hb.
  assert (Hk2 : 2 ^ k <= 2 ^ 31) by (apply Z.pow_le_mono_r; lia).
  assert (Hk0 : 0 < 2 ^ k) by (apply Z.pow_pos_nonneg; lia).
  assert (Hk1 : 0 < 2 ^ (31 - k)) by (apply Z.pow_pos_nonneg; lia).
  set (u := y mod 2 ^ 32) in *. set (w := u / 2 ^ k) in *.
  assert (Hw : w < 2 ^ (32 - k)) by nia.
  assert (Hsum : (r + y) mod 2 ^ 32 = r + u).
  { rewrite Z.add_mod by lia. fold u. rewrite (Z.mod_small r) by lia.
    apply Z.mod_small. nia. }
  unfold to_i32. fold u. rewrite Hsum.
  destruct (Z.ltb_spec u (2 ^ 31)) as [Hl | Hl].
  - assert (w < 2 ^ (31 - k)) by nia.
    replace (r + u <? 2 ^ 31) with true by (symmetry; apply Z.ltb_lt; nia). lia.
  - replace (r + u <? 2 ^ 31) with false by (symmetry; apply Z.ltb_ge; lia). lia.
Qed.

Lemma decode_loop_value : forall ovf sr cs t j r fuel buf rest s,
  Forall (fun b => 128 <= b < 256) cs -> 0 <= t < 128 -> (length cs + j <= 4)%nat ->
  0 <= r < 2 ^ (7 * Z.of_nat j) -> (length cs < fuel)%nat ->
  get_stream sr s = bytes (cs ++ [t]) ++ rest ->
  decode_loop ovf sr fuel (7 * Z.of_nat j) r buf s
  = (Ok (to_i32 (r + varint_value (cs ++ [t]) * 2 ^ (7 * Z.of_nat j))), set_stream sr rest s).
Proof.
  intros ovf sr cs. induction cs as [| b cs IH]; intros t j r fuel buf rest s Hc Ht Hj Hr Hf Hs;
    (destruct fuel as [| fuel]; [simpl in Hf; lia |]); cbn [decode_loop]; unfold bind;
    simpl in Hs; rewrite (read_byte_byte _ _ _ _ Hs); simpl in Hj.
  - replace (ovf && (32 <=? 7 * Z.of_nat j))%bool with false
      by (destruct ovf; [symmetry; apply Z.leb_gt; lia | reflexivity]).
    replace (ovf && (256 <=? 7 * Z.of_nat j + 7))%bool with false
      by (destruct ovf; [symmetry; apply Z.leb_gt; lia | reflexivity]).
    destruct (land_small t Ht) as [H1 H2]. rewrite H1, H2, Z.eqb_refl.
    rewrite (Z.mod_small (7 * Z.of_nat j) 32) by lia.
    rewrite Z.shiftl_mul_pow2 by lia.
    rewrite (lor_to_i32 r _ (7 * Z.of_nat j)); [| lia | lia | apply Z.mod_mul; apply Z.pow_nonzero; lia].
    cbn [app varint_value]. rewrite H1. unfold ret. do 3 f_equal. lia.
  - inversion Hc as [| ? ? Hb Hcs]; subst.
    replace (ovf && (32 <=? 7 * Z.of_nat j))%bool with false
      by (destruct ovf; [symmetry; apply Z.leb_gt; lia | reflexivity]).
    replace (ovf && (256 <=? 7 * Z.of_nat j + 7))%bool with false
      by (destruct ovf; [symmetry; apply Z.leb_gt; lia | reflexivity]).
    destruct (Z.eqb_spec (Z.land b 128) 0) as [E | _]; [exfalso; exact (cont_land b Hb E) |].
    rewrite (Z.mod_small (7 * Z.of_nat j) 32) by lia.
    rewrite (Z.mod_small (7 * Z.of_nat j + 7) 256) by lia.
    rewrite Z.shiftl_mul_pow2 by lia.
    assert (Hx : 0 <= Z.land b 127 < 128).
    { change 127 with (Z.ones 7). rewrite Z.land_ones by lia. apply Z.mod_pos_bound; lia. }
    assert (Hpj : 0 < 2 ^ (7 * Z.of_nat j)) by (apply Z.pow_pos_nonneg; lia).
    assert (Hpj1 : 2 ^ (7 * Z.of_nat (S j)) = 2 ^ (7 * Z.of_nat j) * 128)
      by (rewrite Nat2Z.inj_succ, Z.mul_succ_r, Z.pow_add_r by lia; reflexivity).
    rewrite (lor_to_i32 r _ (7 * Z.of_nat j)); [| lia | lia | apply Z.mod_mul; apply Z.pow_nonzero; lia].
    rewrite to_i32_small.
    2: { assert (2 ^ (7 * Z.of_nat j) <= 2 ^ 21) by (apply Z.pow_le_mono_r; lia). nia. }
    replace (7 * Z.of_nat j + 7) with (7 * Z.of_nat (S j)) by lia.
    rewrite (IH t (S j) _ fuel b rest (set_stream sr (bytes (cs ++ [t]) ++ rest) s));
      [| exact Hcs | exact Ht | lia | rewrite Hpj1; nia | simpl in Hf; lia | apply get_set_stream].
    rewrite set_set_stream. do 3 f_equal. rewrite Hpj1.
    change ((b :: cs) ++ [t]) with (b :: (cs ++ [t])). cbn [varint_value]. lia.
Qed.

(** [decode_stream] on a varint of at most five bytes (continuation bytes,
    then a byte below 128), in both build profiles: the number the bytes
    stand for, wrapped to an [i32]; the bytes after it are left unread. *)
Theorem decode_stream_value : forall ovf sr cs t rest s,
  Forall (fun b => 128 <= b < 256) cs -> (length cs <= 4)%nat -> 0 <= t < 128 ->
  get_stream sr s = bytes (cs ++ [t]) ++ rest ->
  decode_stream ovf sr s = (Ok (to_i32 (varint_value (cs ++ [t]))), set_stream sr rest s).
Proof.
  intros ovf sr cs t rest s Hc Hl Ht Hs. unfold decode_stream.
  pose proof (decode_loop_value ovf sr cs t 0 0 (length (get_stream sr s) + 7) 0 rest s Hc Ht)
    as H. simpl Z.of_nat in H. rewrite Z.mul_0_r, Z.pow_0_r, Z.mul_1_r, Z.add_0_l in H.
  apply H; [lia | simpl; lia | | exact Hs].
  rewrite Hs. unfold bytes. rewrite length_app, length_map, length_app. simpl. lia.
Qed.

Lemma decode_stream_value_witness :
  decode_stream true Pkt (mkSt (bytes [255; 255; 255; 255; 15]) (Player_new (mkTransport [] [] true true false)))
  = (Ok (-1), mkSt [] (Player_new (mkTransport [] [] true true false))).
Proof.
  exact (decode_stream_value true Pkt [255; 255; 255; 255] 15 []
           (mkSt (bytes [255; 255; 255; 255; 15]) (Player_new (mkTransport [] [] true true false)))
           ltac:(repeat constructor; lia) ltac:(simpl; lia) ltac:(lia) eq_refl).
Defined.

Lemma decode_loop_read_error : forall ovf sr cs e j r fuel buf rest s,
  Forall (fun b => 128 <= b < 256) cs -> (length cs + j <= 4)%nat -> (length cs < fuel)%nat ->
  get_stream sr s = bytes cs ++ CErr e :: rest ->
  decode_loop ovf sr fuel (7 * Z.of_nat j) r buf s = (Err (IOError e), set_stream sr rest s).
Proof.
  intros ovf sr cs. induction cs as [| b cs IH]; intros e j r fuel buf rest s Hc Hj Hf Hs;
    (destruct fuel as [| fuel]; [simpl in Hf; lia |]); cbn [decode_loop]; unfold bind.
  - unfold read_byte. simpl in Hs. rewrite Hs. reflexivity.
  - simpl in Hs. rewrite (read_byte_byte _ _ _ _ Hs). simpl in Hj.
    inversion Hc as [| ? ? Hb Hcs]; subst.
    replace (ovf && (32 <=? 7 * Z.of_nat j))%bool with false
      by (destruct ovf; [symmetry; apply Z.leb_gt; lia | reflexivity]).
    replace (ovf && (256 <=? 7 * Z.of_nat j + 7))%bool with false
      by (destruct ovf; [symmetry; apply Z.leb_gt; lia | reflexivity]).
    destruct (Z.eqb_spec (Z.land b 128) 0) as [E | _]; [exfalso; exact (cont_land b Hb E) |].
    rewrite (Z.mod_small (7 * Z.of_nat j + 7) 256) by lia.
    replace (7 * Z.of_nat j + 7) with (7 * Z.of_nat (S j)) by lia.
    rewrite (IH e (S j) _ fuel b rest (set_stream sr (bytes cs ++ CErr e :: rest) s));
      [| exact Hcs | lia | simpl in Hf; lia | apply get_set_stream].
    rewrite set_set_stream. reflexivity.
Qed.

(** A read failure inside a varint of at most five bytes is returned by
    [decode_stream] as that [IOError], with the bytes before it and the failed
    read consumed. *)
Theorem decode_stream_io_error : forall ovf sr cs e rest s,
  Forall (fun b => 128 <= b < 256) cs -> (length cs <= 4)%nat ->
  get_stream sr s = bytes cs ++ CErr e :: rest ->
  decode_stream ovf sr s = (Err (IOError e), set_stream sr rest s).
Proof.
  intros ovf sr cs e rest s Hc Hl Hs. unfold decode_stream.
  apply (decode_loop_read_error ovf sr cs e 0); [exact Hc | lia | | exact Hs].
  rewrite Hs. unfold bytes. rewrite length_app, length_map. simpl. lia.
Qed.

Lemma decode_stream_io_error_witness :
  decode_stream false Pkt (mkSt (bytes [200; 130] ++ [CErr ConnectionReset; CByte 5])
                             (Player_new (mkTransport [] [] true true false)))
  = (Err (IOError ConnectionReset), mkSt [CByte 5] (Player_new (mkTransport [] [] true true false))).
Proof.
  exact (decode_stream_io_error false Pkt [200; 130] ConnectionReset [CByte 5]
           (mkSt (bytes [200; 130] ++ [CErr ConnectionReset; CByte 5])
              (Player_new (mkTransport [] [] true true false)))
           ltac:(repeat constructor; lia) ltac:(simpl; lia) eq_refl).
Defined.

Lemma decode_stream_eof : forall ovf sr s, get_stream sr s = [] -> decode_stream ovf sr s = (Ok 0, s).
Proof.
  intros ovf sr s Hs. unfold decode_stream. rewrite Hs. cbn [decode_loop length Nat.add].
  unfold bind. rewrite (read_byte_eof sr s Hs). destruct ovf; reflexivity.
Qed.

(** A client that closes its side between frames: [decode_stream] reads
    [Ok(0)] from the ended socket and returns 0, so [receive_packet] fails
    with [ClosedError] and [handle_client] ends normally, with nothing
    written. *)
Theorem peer_close_ends_connection : forall ovf info fuel s,
  t_in (connection (st_player s)) = [] ->
  decode_stream ovf Conn s = (Ok 0, s)
  /\ receive_packet ovf info s = (Err ClosedError, s)
  /\ client_loop ovf info (S fuel) s = (ClientOk, s).
Proof.
  intros ovf info fuel s Hin.
  assert (Hd : decode_stream ovf Conn s = (Ok 0, s)) by (apply decode_stream_eof; exact Hin).
  assert (Hr : receive_packet ovf info s = (Err ClosedError, s)).
  { rewrite (receive_packet_after_length ovf info s 0 s Hd). reflexivity. }
  split; [exact Hd | split; [exact Hr |]].
  cbn [client_loop]. rewrite Hr. reflexivity.
Qed.

Lemma peer_close_ends_connection_witness :
  client_loop false initial_server_info 1
    (mkSt [] (Player_new (mkTransport [] [] true true false)))
  = (ClientOk, mkSt [] (Player_new (mkTransport [] [] true true false))).
Proof.
  exact (proj2 (proj2 (peer_close_ends_connection false initial_server_info 0
                         (mkSt [] (Player_new (mkTransport [] [] true true false))) eq_refl))).
Defined.

(** A frame length of 0 or less, or above 256, ends [handle_client] normally
    ([ClosedError] becomes [Ok(())]) right after the length is read, in
    every state. *)
Theorem bad_frame_length_ends_connection : forall ovf info fuel s L s1,
  decode_stream ovf Conn s = (Ok L, s1) -> (L <= 0 \/ 256 < L) ->
  client_loop ovf info (S fuel) s = (ClientOk, s1).
Proof.
  intros ovf info fuel s L s1 Hd HL. cbn [client_loop].
  rewrite (receive_packet_after_length ovf info s L s1 Hd).
  destruct HL as [HL | HL].
  - replace (L <=? 0) with true by (symmetry; apply Z.leb_le; lia). reflexivity.
  - replace (L <=? 0) with false by (symmetry; apply Z.leb_gt; lia).
    replace (256 <? L) with true by (symmetry; apply Z.ltb_lt; lia). reflexivity.
Qed.

Lemma bad_frame_length_ends_connection_witness :
  client_loop false initial_server_info 3
    (mkSt [] (Player_new (mkTransport (bytes [129; 2; 0]) [] true true false)))
  = (ClientOk, mkSt [] (Player_new (mkTransport [CByte 0] [] true true false))).
Proof.
  apply (bad_frame_length_ends_connection false initial_server_info 2
           (mkSt [] (Player_new (mkTransport (bytes [129; 2; 0]) [] true true false))) 257
           (mkSt [] (Player_new (mkTransport [CByte 0] [] true true false))));
    [reflexivity | right; lia].
Defined.

Lemma of_be_snoc : forall l b, of_be (l ++ [b]) 0 = of_be l 0 * 256 + b.
Proof.
  intros l b. revert l. intros l. generalize 0 as acc. induction l as [| x l IH]; intros acc.
  - reflexivity.
  - cbn [app of_be]. apply IH.
Qed.

Lemma be_bytes_of_be : forall l, Forall (fun b => 0 <= b < 256) l ->
  be_bytes (length l) (of_be l 0) = l.
Proof.
  induction l as [| b l IH] using rev_ind; intros Hl.
  - reflexivity.
  - apply Forall_app in Hl as [Hl Hb]. inversion Hb as [| ? ? Hb' _]; subst.
    rewrite length_app, Nat.add_comm. cbn [length Nat.add be_bytes]. rewrite of_be_snoc.
    rewrite Z.div_add_l, Z.div_small, Z.add_0_r by lia.
    rewrite Z.add_comm, Z.mod_add, Z.mod_small by lia. rewrite IH by exact Hl. reflexivity.
Qed.

Lemma handle_packet_pid : forall ovf info pid rest pl,
  -2 ^ 31 <= pid < 2 ^ 31 ->
  handle_packet ovf info (mkSt (bytes (varint_spec_encode pid) ++ rest) pl)
  = (if pid =? 0 then handle_status_login ovf info
     else if pid =? 1 then handle_ping else ret tt) (mkSt rest pl).
Proof.
  intros ovf info pid rest pl Hp. unfold handle_packet, decode. unfold bind at 1.
  decode_known pid. reflexivity.
Qed.

Lemma ping_echo_run : forall ovf info payload rest pl,
  length payload = 8%nat -> Forall (fun b => 0 <= b < 256) payload ->
  t_write_ok (connection pl) = true ->
  let c := connection pl in
  handle_packet ovf info (mkSt (bytes (1 :: payload) ++ rest) pl)
  = (Ok tt, mkSt rest (set_conn pl (mkTransport (t_in c) (t_out c ++ [9; 1] ++ payload)
                                     true (t_connected c) (t_shut c)))).
Proof.
  intros ovf info payload rest pl Hl Hb Hw c.
  change (1 :: payload) with (varint_spec_encode 1 ++ payload).
  rewrite bytes_app, <- app_assoc, handle_packet_pid by lia. cbv beta iota.
  change (1 =? 0) with false. change (1 =? 1) with true. cbv beta iota.
  unfold handle_ping, bind at 1. rewrite <- Hl.
  rewrite (read_be_bytes Pkt payload rest (mkSt (bytes payload ++ rest) pl) eq_refl).
  cbv beta iota. cbn [set_stream].
  rewrite be_bytes_of_be by exact Hb.
  rewrite send_packet_ok by (rewrite ?Hl; simpl; lia). rewrite Hl.
  unfold write_conn. cbn [st_player st_pkt]. rewrite Hw. reflexivity.
Qed.

(** [handle_ping]: a ping packet (id 1) with an 8-byte payload is answered
    by a pong packet (id 1) carrying the same 8 bytes, framed by its length 9;
    nothing else of the player changes and the payload is consumed. *)
Theorem ping_echo : forall ovf info payload rest pl,
  length payload = 8%nat -> Forall (fun b => 0 <= b < 256) payload ->
  t_write_ok (connection pl) = true ->
  let c := connection pl in
  handle_packet ovf info (mkSt (bytes (1 :: payload) ++ rest) pl)
  = (Ok tt, mkSt rest (set_conn pl (mkTransport (t_in c) (t_out c ++ [9; 1] ++ payload)
                                     true (t_connected c) (t_shut c)))).
Proof. exact ping_echo_run. Qed.

Lemma ping_echo_witness :
  handle_packet false initial_server_info
    (mkSt (bytes [1; 0; 0; 0; 0; 0; 0; 1; 44])
          (mkPlayer (mkTransport [] [] true true false) STATUS None))
  = (Ok tt, mkSt [] (mkPlayer (mkTransport [] [9; 1; 0; 0; 0; 0; 0; 0; 1; 44] true true false)
                       STATUS None)).
Proof.
  apply (ping_echo false initial_server_info [0; 0; 0; 0; 0; 0; 1; 44] []
           (mkPlayer (mkTransport [] [] true true false) STATUS None));
    [reflexivity | repeat constructor; lia | reflexivity].
Defined.

Lemma take_exact_short : forall n l, (length l < n)%nat ->
  take_exact n (bytes l) = (Some UnexpectedEof, l, []).
Proof.
  intros n l. revert n. induction l as [| b l IH]; intros [| n] H; cbn [length] in H; try lia.
  - reflexivity.
  - cbn [bytes map take_exact]. fold (bytes l). rewrite IH by lia. reflexivity.
Qed.

(** [handle_ping] on a ping packet whose payload is shorter than 8 bytes:
    [read_u64] fails with [UnexpectedEof], nothing is written and the packet
    is used up. *)
Theorem ping_short_payload : forall ovf info payload pl,
  (length payload < 8)%nat ->
  handle_packet ovf info (mkSt (bytes (1 :: payload)) pl)
  = (Err (IOError UnexpectedEof), mkSt [] pl).
Proof.
  intros ovf info payload pl Hl.
  change (1 :: payload) with (varint_spec_encode 1 ++ payload).
  rewrite bytes_app, handle_packet_pid by lia.
  change (1 =? 0) with false. change (1 =? 1) with true. cbv beta iota.
  unfold handle_ping, bind at 1, read_be, bind at 1, read_exact. cbn [get_stream st_pkt].
  rewrite take_exact_short by exact Hl. reflexivity.
Qed.

Lemma ping_short_payload_witness :
  handle_packet true initial_server_info
    (mkSt (bytes [1; 7; 7]) (mkPlayer (mkTransport [] [] true true false) STATUS None))
  = (Err (IOError UnexpectedEof), mkSt [] (mkPlayer (mkTransport [] [] true true false) STATUS None)).
Proof.
  apply (ping_short_payload true initial_server_info [7; 7]). simpl. lia.
Defined.

(** [Player::handle_packet]: a packet id other than 0 and 1 is only logged;
    the rest of the packet is not read, the player is unchanged and the
    result is [Ok(())]. *)
Theorem unknown_packet_ignored : forall ovf info pid rest pl,
  -2 ^ 31 <= pid < 2 ^ 31 -> pid <> 0 -> pid <> 1 ->
  handle_packet ovf info (mkSt (bytes (varint_spec_encode pid) ++ rest) pl) = (Ok tt, mkSt rest pl).
Proof.
  intros ovf info pid rest pl Hp H0 H1. rewrite handle_packet_pid by exact Hp.
  apply Z.eqb_neq in H0, H1. rewrite H0, H1. reflexivity.
Qed.

Lemma unknown_packet_ignored_witness :
  handle_packet false initial_server_info
    (mkSt (bytes [255; 255; 255; 255; 15; 3]) (Player_new (mkTransport [] [] true true false)))
  = (Ok tt, mkSt [CByte 3] (Player_new (mkTransport [] [] true true false))).
Proof.
  apply (unknown_packet_ignored false initial_server_info (-1) [CByte 3]); lia.
Defined.

(** [handle_status_login] in [TRANSFER]: packet 0 is only logged; the
    player is unchanged and the rest of the packet is not read. *)
Theorem transfer_packet0_ignored : forall ovf info rest pl,
  state pl = TRANSFER ->
  handle_packet ovf info (mkSt (CByte 0 :: rest) pl) = (Ok tt, mkSt rest pl).
Proof.
  intros ovf info rest pl Hst.
  change (CByte 0 :: rest) with (bytes (varint_spec_encode 0) ++ rest).
  rewrite handle_packet_pid by lia. cbv beta iota. rewrite Z.eqb_refl.
  unfold handle_status_login, bind at 1, get_player at 1. cbv beta iota.
  cbn [st_player]. rewrite Hst. reflexivity.
Qed.

Lemma transfer_packet0_ignored_witness :
  handle_packet true initial_server_info
    (mkSt [CByte 0; CByte 9] (mkPlayer (mkTransport [] [] true true false) TRANSFER None))
  = (Ok tt, mkSt [CByte 9] (mkPlayer (mkTransport [] [] true true false) TRANSFER None)).
Proof.
  apply (transfer_packet0_ignored true initial_server_info [CByte 9]). reflexivity.
Defined.

Lemma hexval_hexdig : forall d, 0 <= d < 16 -> hexval (hexdig d) = d.
Proof.
  intros d Hd. unfold hexval, hexdig.
  destruct (Z.ltb_spec d 10); [rewrite (proj2 (Z.ltb_lt _ 97)) by lia | rewrite (proj2 (Z.ltb_ge _ 97)) by lia]; lia.
Qed.

Lemma hexdig_range : forall d, 0 <= d < 16 -> 48 <= hexdig d <= 57 \/ 97 <= hexdig d <= 102.
Proof. intros d Hd. unfold hexdig. destruct (Z.ltb_spec d 10); lia. Qed.

Lemma nibbles_length : forall n z, length (nibbles n z) = n.
Proof.
  induction n as [| n IH]; intros z; [reflexivity |].
  cbn [nibbles]. rewrite length_app, IH. simpl. lia.
Qed.

Lemma nibbles_range : forall n z, Forall (fun d => 0 <= d < 16) (nibbles n z).
Proof.
  induction n as [| n IH]; intros z; [constructor |].
  cbn [nibbles]. apply Forall_app. split; [apply IH | constructor; [apply Z.mod_pos_bound; lia | constructor]].
Qed.

Lemma of_hex_nibbles : forall n z, of_hex (map hexdig (nibbles n z)) = z mod 16 ^ Z.of_nat n.
Proof.
  induction n as [| n IH]; intros z.
  - simpl. rewrite Z.mod_1_r. reflexivity.
  - cbn [nibbles]. rewrite map_app. unfold of_hex. rewrite fold_left_app. fold (of_hex (map hexdig (nibbles n (z / 16)))).
    rewrite IH. cbn [map fold_left]. rewrite hexval_hexdig by (apply Z.mod_pos_bound; lia).
    rewrite Nat2Z.inj_succ, Z.pow_succ_r, Z.rem_mul_r by lia. lia.
Qed.

Lemma uuid_layout : forall h : list Z, length h = 32%nat ->
  let s := firstn 8 h ++ [45] ++ firstn 4 (skipn 8 h) ++ [45] ++ firstn 4 (skipn 12 h) ++ [45]
           ++ firstn 4 (skipn 16 h) ++ [45] ++ skipn 20 h in
  length s = 36%nat /\ nth 8 s 0 = 45 /\ nth 13 s 0 = 45 /\ nth 18 s 0 = 45 /\ nth 23 s 0 = 45
  /\ firstn 8 h ++ firstn 4 (skipn 8 h) ++ firstn 4 (skipn 12 h) ++ firstn 4 (skipn 16 h)
     ++ skipn 20 h = h.
Proof.
  intros h Hh.
  do 32 (destruct h as [| ? h]; [discriminate |]). destruct h; [| discriminate].
  repeat split; reflexivity.
Qed.

Lemma filter_no_hyphen : forall h, Forall (fun c => c <> 45) h -> filter (fun c => negb (c =? 45)) h = h.
Proof.
  induction h as [| c h IH]; intros H; [reflexivity |]. inversion H as [| ? ? Hc Hh]; subst.
  cbn [filter]. rewrite (proj2 (Z.eqb_neq c 45) Hc). cbn [negb]. rewrite IH by exact Hh. reflexivity.
Qed.

(** [Uuid::to_string] as the player list writes it: 36 characters with
    hyphens at positions 8, 13, 18 and 23; the other 32 are lower-case
    hexadecimal digits, and read back as a number they give the uuid. *)
Theorem uuid_to_string_roundtrip : forall u, 0 <= u < 2 ^ 128 ->
  let s := uuid_to_string u in
  length s = 36%nat /\ nth 8 s 0 = 45 /\ nth 13 s 0 = 45 /\ nth 18 s 0 = 45 /\ nth 23 s 0 = 45
  /\ Forall (fun c => 48 <= c <= 57 \/ 97 <= c <= 102) (uuid_digits s)
  /\ of_hex (uuid_digits s) = u.
Proof.
  intros u Hu s. unfold s, uuid_to_string.
  assert (Hl : length (map hexdig (nibbles 32 u)) = 32%nat) by (rewrite length_map; apply nibbles_length).
  assert (Hr : Forall (fun c => 48 <= c <= 57 \/ 97 <= c <= 102) (map hexdig (nibbles 32 u))).
  { apply Forall_map. eapply Forall_impl; [| apply nibbles_range]. intros d Hd. apply hexdig_range, Hd. }
  assert (Hv : of_hex (map hexdig (nibbles 32 u)) = u).
  { rewrite of_hex_nibbles. apply Z.mod_small. change (16 ^ Z.of_nat 32) with (2 ^ 128). exact Hu. }
  revert Hl Hr Hv. generalize (map hexdig (nibbles 32 u)). intros h Hl Hr Hv.
  destruct (uuid_layout h Hl) as (H1 & H2 & H3 & H4 & H5 & H6).
  assert (Hd : uuid_digits
            (firstn 8 h ++ [45] ++ firstn 4 (skipn 8 h) ++ [45] ++ firstn 4 (skipn 12 h) ++ [45]
             ++ firstn 4 (skipn 16 h) ++ [45] ++ skipn 20 h) = h).
  { unfold uuid_digits. rewrite !filter_app.
    change (filter (fun c => negb (c =? 45)) [45]) with (@nil Z). rewrite !app_nil_l.
    rewrite <- !filter_app, H6.
    apply filter_no_hyphen. eapply Forall_impl; [| exact Hr]. intros c Hc. cbv beta in Hc. lia. }
  rewrite Hd. repeat split; assumption.
Qed.

Lemma uuid_to_string_roundtrip_witness :
  uuid_to_string 42 = str "00000000-0000-0000-0000-00000000002a"
  /\ of_hex (uuid_digits (uuid_to_string 42)) = 42.
Proof.
  split; [vm_compute; reflexivity |].
  assert (Hb : 0 <= 42 < 2 ^ 128) by lia.
  exact (proj2 (proj2 (proj2 (proj2 (proj2 (proj2 (uuid_to_string_roundtrip 42 Hb))))))).
Defined.

Lemma status_packet_run : forall info pkt pl,
  let c := config info in
  let resp := as_bytes (make_status_response (version c) (status_protocol info pl)
                (max_players c) (online_players c) (player_list c) (motd c) false (icon info)) in
  Z.of_nat (length resp) < 2 ^ 29 -> t_write_ok (connection pl) = true ->
  let t := connection pl in
  let data := varint_spec_encode (Z.of_nat (length resp)) ++ resp in
  handle_status info (mkSt pkt pl)
  = (Ok tt, mkSt pkt (set_conn pl (mkTransport (t_in t)
               (t_out t ++ varint_spec_encode (Z.of_nat (1 + length data)) ++ [0] ++ data)
               true (t_connected t) (t_shut t)))).
Proof.
  intros info pkt pl c resp Hl Hw t data.
  unfold handle_status, bind at 1, get_player at 1. cbv beta iota. cbn [st_player].
  fold c. fold resp. unfold send_status_text. fold resp.
  unfold bind at 1. rewrite to_i32_small by lia. rewrite encode_m_ok by lia.
  cbv beta iota. fold data.
  assert (Hd : Z.of_nat (length data) < 2 ^ 30).
  { unfold data. rewrite length_app. pose proof (varint_spec_encode_length (Z.of_nat (length resp))). lia. }
  rewrite send_packet_ok by (lia || exact Hd).
  change (varint_spec_encode 0) with [0].
  unfold write_conn. cbn [st_player st_pkt]. rewrite Hw. reflexivity.
Qed.

(** [handle_status] on the wire: it writes one packet with id 0 whose data
    is the UTF-8 length of the response as a varint followed by the
    response; the packet is framed by its own varint length, and the
    request body is left unread. *)
Theorem status_response_packet : forall info pkt pl,
  let c := config info in
  let resp := as_bytes (make_status_response (version c) (status_protocol info pl)
                (max_players c) (online_players c) (player_list c) (motd c) false (icon info)) in
  Z.of_nat (length resp) < 2 ^ 29 -> t_write_ok (connection pl) = true ->
  let t := connection pl in
  let data := varint_spec_encode (Z.of_nat (length resp)) ++ resp in
  handle_status info (mkSt pkt pl)
  = (Ok tt, mkSt pkt (set_conn pl (mkTransport (t_in t)
               (t_out t ++ varint_spec_encode (Z.of_nat (1 + length data)) ++ [0] ++ data)
               true (t_connected t) (t_shut t)))).
Proof. exact status_packet_run. Qed.

Lemma status_response_packet_witness :
  exists out,
    handle_status initial_server_info
      (mkSt [] (mkPlayer (mkTransport [] [] true true false) STATUS None))
    = (Ok tt, mkSt [] (mkPlayer (mkTransport [] out true true false) STATUS None)).
Proof.
  eexists. apply (status_response_packet initial_server_info []
                    (mkPlayer (mkTransport [] [] true true false) STATUS None));
    [vm_compute; reflexivity | reflexivity].
Defined.

Lemma receive_frame : forall ovf info q pkt pl rest r s2,
  t_in (connection pl) = bytes (varint_spec_encode (Z.of_nat (length pkt)) ++ pkt) ++ rest ->
  (0 < length pkt <= 256)%nat -> ~ (length pkt = 254%nat /\ state pl = HANDSHAKING) ->
  handle_packet ovf info (mkSt (bytes pkt) (set_conn pl (set_in (connection pl) rest))) = (r, s2) ->
  receive_packet ovf info (mkSt q pl)
  = (match r with Ok _ => Ok tt | Err e => Err e | Panic => Panic | Diverge => Diverge end,
     mkSt q (st_player s2)).
Proof.
  intros ovf info q pkt pl rest r s2 Hin Hl Hn Hh.
  rewrite bytes_app, <- app_assoc in Hin.
  rewrite (receive_packet_ordinary_frame ovf info (mkSt q pl) (Z.of_nat (length pkt))
             (set_stream Conn (bytes pkt ++ rest) (mkSt q pl))).
  - unfold bind at 1. rewrite Nat2Z.id.
    rewrite (read_exact_bytes Conn pkt rest _ (get_set_stream _ _ _)).
    rewrite set_set_stream. unfold bind, with_packet. cbn [set_stream st_player st_pkt connection].
    rewrite Hh. destruct r; reflexivity.
  - apply decode_spec_encode; [lia | exact Hin].
  - lia.
  - cbn [st_player]. intros [H1 H2]. apply Hn. split; [lia | exact H2].
Qed.

Lemma handshake_packet_run : forall ovf info pl proto hb host port intent,
  state pl = HANDSHAKING ->
  -2 ^ 31 <= proto < 2 ^ 31 -> -2 ^ 31 <= intent < 2 ^ 31 ->
  Z.of_nat (length hb) < 2 ^ 31 -> from_utf8 hb = Some host -> 0 <= port < 2 ^ 16 ->
  handle_packet ovf info
    (mkSt (bytes (0 :: varint_spec_encode proto ++ varint_spec_encode (Z.of_nat (length hb)) ++ hb
                  ++ be_bytes 2 port ++ varint_spec_encode intent)) pl)
  = match ConnectionState_try_from (intent mod 256) with
    | None => (Err (DataError [intent mod 256]), mkSt [] pl)
    | Some st =>
      (Ok tt, mkSt [] (mkPlayer (connection pl) st
                         (Some (mkHandshakeInfo (proto mod 2 ^ 16) host port))))
    end.
Proof.
  intros ovf info pl proto hb host port intent Hst Hp Hi Hl Hh Hport.
  change (0 :: ?l) with (varint_spec_encode 0 ++ l).
  rewrite <- (app_nil_r (bytes (varint_spec_encode 0 ++ _))), bytes_app, <- app_assoc.
  rewrite handle_packet_pid by lia. cbv beta iota. rewrite Z.eqb_refl.
  unfold handle_status_login, bind at 1, get_player at 1. cbv beta iota.
  cbn [st_player]. rewrite Hst.
  exact (handle_handshake_run ovf pl proto hb host port intent [] Hp Hi Hl Hh Hport).
Qed.

Lemma status_request_dispatch : forall ovf info pl, state pl = STATUS ->
  handle_packet ovf info (mkSt (bytes [0]) pl) = handle_status info (mkSt [] pl).
Proof.
  intros ovf info pl Hst.
  change (bytes [0]) with (bytes (varint_spec_encode 0) ++ []).
  rewrite handle_packet_pid by lia. cbv beta iota. rewrite Z.eqb_refl.
  unfold handle_status_login, bind at 1, get_player at 1. cbv beta iota.
  cbn [st_player]. rewrite Hst. reflexivity.
Qed.

(** A full status session through [handle_client]: a client that sends a
    handshake with intent 1 (status), a status request and a ping, then
    closes its side, receives the status response packet and the pong, in
    that order; the connection ends normally in the [STATUS] state with the
    handshake recorded. *)
Theorem status_session : forall ovf info proto hb host port payload t,
  -2 ^ 31 <= proto < 2 ^ 31 -> from_utf8 hb = Some host -> 0 <= port < 2 ^ 16 ->
  let hs := 0 :: varint_spec_encode proto ++ varint_spec_encode (Z.of_nat (length hb)) ++ hb
            ++ be_bytes 2 port ++ [1] in
  (length hs <= 256)%nat -> length hs <> 254%nat ->
  length payload = 8%nat -> Forall (fun b => 0 <= b < 256) payload ->
  t_in t = bytes (packet_frame hs ++ packet_frame [0] ++ packet_frame (1 :: payload)) ->
  t_write_ok t = true ->
  let hsi := Some (mkHandshakeInfo (proto mod 2 ^ 16) host port) in
  let c := config info in
  let resp := as_bytes (make_status_response (version c)
                (status_protocol info (mkPlayer t STATUS hsi))
                (max_players c) (online_players c) (player_list c) (motd c) false (icon info)) in
  Z.of_nat (length resp) < 2 ^ 29 ->
  let data := varint_spec_encode (Z.of_nat (length resp)) ++ resp in
  handle_client ovf info t
  = (ClientOk,
     mkSt [] (mkPlayer
                (mkTransport [] (t_out t ++ packet_frame (0 :: data) ++ packet_frame (1 :: payload))
                   true (t_connected t) (t_shut t))
                STATUS hsi)).
Proof.
  intros ovf info proto hb host port payload t Hp Hh Hport hs Hle Hne Hpl Hb Hin Hw
    hsi c resp Hresp data.
  assert (Hfuel : exists k, length (t_in t) = S (S (S (S k)))).
  { rewrite Hin. unfold bytes, packet_frame. rewrite length_map, !length_app.
    pose proof (varint_spec_encode_length (Z.of_nat (length hs))).
    pose proof (varint_spec_encode_length (Z.of_nat (length [0]))).
    pose proof (varint_spec_encode_length (Z.of_nat (length (1 :: payload)))).
    exists (length (t_in t) - 4)%nat. rewrite Hin. unfold bytes, packet_frame. rewrite length_map, !length_app.
    simpl length. lia. }
  destruct Hfuel as [k Hk].
  unfold handle_client. rewrite Hk. unfold packet_frame at 1 in Hin. rewrite bytes_app in Hin.
  (* the handshake *)
  assert (Hlhb : Z.of_nat (length hb) < 2 ^ 31).
  { unfold hs in Hle. cbn [length] in Hle. rewrite !length_app in Hle. lia. }
  cbn [client_loop].
  rewrite (receive_frame ovf info [] hs (Player_new t) (bytes (packet_frame [0] ++ packet_frame (1 :: payload))) (Ok tt)
             (mkSt [] (mkPlayer (set_in t (bytes (packet_frame [0] ++ packet_frame (1 :: payload)))) STATUS hsi))).
  2: exact Hin.
  2: { split; [unfold hs; cbn [length]; lia | exact Hle]. }
  2: { intros [H _]. exact (Hne H). }
  2: { assert (H1 : -2 ^ 31 <= 1 < 2 ^ 31) by lia.
       unfold hs. change [1] with (varint_spec_encode 1).
       rewrite (handshake_packet_run ovf info (set_conn (Player_new t) (set_in (connection (Player_new t)) (bytes (packet_frame [0] ++ packet_frame (1 :: payload))))) proto hb host port 1 eq_refl Hp H1 Hlhb Hh Hport).
       reflexivity. }
  cbv iota. cbn [st_player].
  (* the status request *)
  set (P1 := mkPlayer (set_in t (bytes (packet_frame [0] ++ packet_frame (1 :: payload)))) STATUS hsi).
  set (P2 := mkPlayer (mkTransport (bytes (packet_frame (1 :: payload))) (t_out t ++ packet_frame (0 :: data))
                         true (t_connected t) (t_shut t)) STATUS hsi).
  set (P3 := mkPlayer (mkTransport [] (t_out t ++ packet_frame (0 :: data) ++ packet_frame (1 :: payload))
                         true (t_connected t) (t_shut t)) STATUS hsi).
  assert (Hr2 : handle_packet ovf info
                  (mkSt (bytes [0]) (set_conn P1 (set_in (connection P1) (bytes (packet_frame (1 :: payload))))))
                = (Ok tt, mkSt [] P2)).
  { rewrite status_request_dispatch by reflexivity.
    rewrite status_packet_run; [| exact Hresp | exact Hw]. reflexivity. }
  rewrite (receive_frame ovf info [] [0] P1 (bytes (packet_frame (1 :: payload))) (Ok tt) (mkSt [] P2)).
  2: { unfold P1. cbn [connection t_in set_in]. unfold packet_frame at 1. rewrite bytes_app. reflexivity. }
  2: { cbn [length]. lia. }
  2: { cbn [length]. lia. }
  2: exact Hr2.
  cbv iota. cbn [st_player].
  (* the ping *)
  assert (Hr3 : handle_packet ovf info
                  (mkSt (bytes (1 :: payload)) (set_conn P2 (set_in (connection P2) [])))
                = (Ok tt, mkSt [] P3)).
  { rewrite <- (app_nil_r (bytes (1 :: payload))).
    rewrite ping_echo_run; [| exact Hpl | exact Hb | reflexivity].
    unfold P2, P3, set_conn, set_in. cbn [connection t_in t_out t_write_ok t_connected t_shut state handshake_info].
    rewrite <- app_assoc. unfold packet_frame at 3. cbn [length]. rewrite Hpl. reflexivity. }
  rewrite (receive_frame ovf info [] (1 :: payload) P2 [] (Ok tt) (mkSt [] P3)).
  2: { unfold P2. cbn [connection t_in]. rewrite app_nil_r. reflexivity. }
  2: { cbn [length]. lia. }
  2: { cbn [length]. lia. }
  2: exact Hr3.
  cbv iota. cbn [st_player].
  (* the end of the input *)
  rewrite (receive_packet_after_length ovf info (mkSt [] P3) 0 (mkSt [] P3)
             (decode_stream_eof ovf Conn (mkSt [] P3) eq_refl)).
  reflexivity.
Qed.

Lemma status_session_witness :
  exists st,
    handle_client false initial_server_info
      (mkTransport
         (bytes (packet_frame (0 :: varint_spec_encode 767 ++ varint_spec_encode 9 ++ str "localhost"
                        ++ be_bytes 2 25565 ++ [1])
                 ++ packet_frame [0] ++ packet_frame [1; 0; 0; 0; 0; 0; 0; 0; 7]))
         [] true true false)
    = (ClientOk, st).
Proof.
  eexists.
  apply (status_session false initial_server_info 767 (str "localhost") (str "localhost") 25565
           [0; 0; 0; 0; 0; 0; 0; 7]);
    [lia | reflexivity | lia | vm_compute; lia | apply Nat.eqb_neq; vm_compute; reflexivity
    | reflexivity | repeat constructor; lia | reflexivity | reflexivity | vm_compute; reflexivity].
Defined.

Lemma length_be_bytes : forall n z, length (be_bytes n z) = n.
Proof.
  induction n as [| n IH]; intros z; [reflexivity |].
  cbn [be_bytes]. rewrite length_app, IH. simpl. lia.
Qed.

Lemma read_u16s_bytes : forall us rest s, Forall (fun u => 0 <= u < 2 ^ 16) us ->
  get_stream Conn s = bytes (flat_map (be_bytes 2) us) ++ rest ->
  read_u16s (length us) s = (Ok us, set_stream Conn rest s).
Proof.
  induction us as [| u us IH]; intros rest s Hu Hs.
  - cbn [length read_u16s]. unfold ret. destruct s as [q [[i o w c sh] st h]].
    cbn in Hs |- *. rewrite Hs. reflexivity.
  - inversion Hu as [| ? ? Hu1 Hus]; subst. cbn [length read_u16s]. unfold bind at 1.
    cbn [flat_map] in Hs. rewrite bytes_app, <- app_assoc in Hs.
    rewrite <- (length_be_bytes 2 u) at 1.
    rewrite (read_be_bytes Conn (be_bytes 2 u) _ s Hs). rewrite of_be_be_bytes_2 by exact Hu1.
    unfold bind at 1. rewrite (IH rest _ Hus (get_set_stream _ _ _)). rewrite set_set_stream.
    reflexivity.
Qed.

Lemma read_utf16_string_long : forall n rest s, 255 < n < 2 ^ 16 ->
  get_stream Conn s = bytes (be_bytes 2 n) ++ rest ->
  read_utf16_string s = (Err (DataError (be_bytes 2 n)), set_stream Conn rest s).
Proof.
  intros n rest s Hn Hs. unfold read_utf16_string, bind at 1.
  rewrite <- (length_be_bytes 2 n) at 1. rewrite (read_be_bytes Conn _ rest s Hs).
  rewrite of_be_be_bytes_2 by lia. rewrite (proj2 (Z.ltb_lt 255 n)) by lia. reflexivity.
Qed.

Lemma read_utf16_string_ok : forall us rest s, Forall (fun u => 0 <= u < 2 ^ 16) us ->
  (length us <= 255)%nat ->
  get_stream Conn s = bytes (utf16_field us) ++ rest ->
  read_utf16_string s
  = (match from_utf16 us with Some x => Ok x | None => Err FromUtf16Error end,
     set_stream Conn rest s).
Proof.
  intros us rest s Hu Hl Hs. unfold utf16_field in Hs.
  rewrite bytes_app, <- app_assoc in Hs. unfold read_utf16_string, bind at 1.
  rewrite <- (length_be_bytes 2 (Z.of_nat (length us))) at 1.
  rewrite (read_be_bytes Conn _ _ s Hs). rewrite of_be_be_bytes_2 by lia.
  rewrite (proj2 (Z.ltb_ge 255 _)) by lia. rewrite Nat2Z.id.
  unfold bind at 1. rewrite (read_u16s_bytes us rest _ Hu (get_set_stream _ _ _)).
  rewrite set_set_stream. destruct (from_utf16 us); reflexivity.
Qed.

(** [Player::read_utf16_string]: a declared length above 255 is refused
    with [DataError] of its two bytes, right after they are read; a length
    of at most 255 followed by that many UTF-16 units gives the decoded
    string, or [FromUtf16Error] when the units are not valid UTF-16. *)
Theorem read_utf16_string_result :
  (forall n rest s, 255 < n < 2 ^ 16 ->
     get_stream Conn s = bytes (be_bytes 2 n) ++ rest ->
     read_utf16_string s = (Err (DataError (be_bytes 2 n)), set_stream Conn rest s))
  /\ (forall us rest s, Forall (fun u => 0 <= u < 2 ^ 16) us -> (length us <= 255)%nat ->
     get_stream Conn s = bytes (utf16_field us) ++ rest ->
     read_utf16_string s
     = (match from_utf16 us with Some x => Ok x | None => Err FromUtf16Error end,
        set_stream Conn rest s)).
Proof. split; [exact read_utf16_string_long | exact read_utf16_string_ok]. Qed.

Lemma read_utf16_string_result_witness :
  read_utf16_string
    (mkSt [] (Player_new (mkTransport (bytes [1; 0]) [] true true false)))
  = (Err (DataError [1; 0]), mkSt [] (Player_new (mkTransport [] [] true true false)))
  /\ read_utf16_string
       (mkSt [] (Player_new (mkTransport (bytes [0; 2; 0; 72; 0; 105]) [] true true false)))
     = (Ok [72; 105], mkSt [] (Player_new (mkTransport [] [] true true false))).
Proof.
  split.
  - apply (proj1 read_utf16_string_result 256 []
             (mkSt [] (Player_new (mkTransport (bytes [1; 0]) [] true true false))));
      [lia | reflexivity].
  - apply (proj2 read_utf16_string_result [72; 105] []
             (mkSt [] (Player_new (mkTransport (bytes [0; 2; 0; 72; 0; 105]) [] true true false))));
      [repeat constructor; lia | simpl; lia | reflexivity].
Defined.

Lemma write_conn_ok : forall bs s, t_write_ok (connection (st_player s)) = true ->
  let t := connection (st_player s) in
  write_conn bs s = (Ok tt, mkSt (st_pkt s) (set_conn (st_player s)
                       (mkTransport (t_in t) (t_out t ++ bs) true (t_connected t) (t_shut t)))).
Proof. intros bs s Hw t. unfold write_conn. cbv zeta. rewrite Hw. reflexivity. Qed.

Lemma write_u16s_ok : forall us s, t_write_ok (connection (st_player s)) = true ->
  let t := connection (st_player s) in
  write_u16s us s
  = (Ok tt, mkSt (st_pkt s) (set_conn (st_player s)
               (mkTransport (t_in t) (t_out t ++ flat_map (be_bytes 2) us) true (t_connected t) (t_shut t)))).
Proof.
  induction us as [| u us IH]; intros s Hw t.
  - destruct s as [q [[i o w c sh] st h]]. cbn in Hw. subst w. unfold t. cbn.
    rewrite app_nil_r. reflexivity.
  - cbn [write_u16s]. unfold bind at 1. rewrite write_conn_ok by exact Hw.
    rewrite IH by reflexivity. cbn [flat_map]. rewrite app_assoc. reflexivity.
Qed.

Lemma legacy_ping_run : forall info id us1 h1 x proto us2 h2 port rest s,
  0 <= proto < 256 ->
  Forall (fun u => 0 <= u < 2 ^ 16) us1 -> (length us1 <= 255)%nat -> from_utf16 us1 = Some h1 ->
  Forall (fun u => 0 <= u < 2 ^ 16) us2 -> (length us2 <= 255)%nat -> from_utf16 us2 = Some h2 ->
  length x = 2%nat -> length port = 4%nat ->
  t_write_ok (connection (st_player s)) = true ->
  get_stream Conn s = bytes ([id] ++ utf16_field us1 ++ x ++ [proto] ++ utf16_field us2 ++ port) ++ rest ->
  let resp := legacy_response info
                (match cfg_protocol (config info) with Some p => p | None => proto end) in
  let t := connection (st_player s) in
  handle_legacy_ping info s
  = (Ok tt, mkSt (st_pkt s) (set_conn (st_player s)
               (mkTransport rest
                  (t_out t ++ [255] ++ be_bytes 2 (to_u16 (rlen resp)) ++ legacy_header
                   ++ flat_map (be_bytes 2) (encode_utf16 resp))
                  true (t_connected t) (t_shut t)))).
Proof.
  intros info id us1 h1 x proto us2 h2 port rest s Hp Hu1 Hl1 Hh1 Hu2 Hl2 Hh2 Hx Hport Hw Hs resp t.
  rewrite !bytes_app, <- !app_assoc in Hs.
  unfold handle_legacy_ping, bind at 1.
  change (read_be Conn 1) with (read_be Conn (length [id])).
  rewrite (read_be_bytes Conn [id] _ s Hs). cbv beta iota.
  unfold bind at 1.
  rewrite (read_utf16_string_ok us1 _ _ Hu1 Hl1 (get_set_stream _ _ _)). rewrite Hh1. cbv beta iota.
  unfold bind at 1. rewrite <- Hx at 1.
  rewrite (read_be_bytes Conn x _ _ (get_set_stream _ _ _)). cbv beta iota.
  unfold bind at 1. change (read_be Conn 1) with (read_be Conn (length [proto])).
  rewrite (read_be_bytes Conn [proto] _ _ (get_set_stream _ _ _)). cbv beta iota.
  change (of_be [proto] 0) with (0 * 256 + proto). rewrite Z.add_0_l.
  unfold bind at 1.
  rewrite (read_utf16_string_ok us2 _ _ Hu2 Hl2 (get_set_stream _ _ _)). rewrite Hh2. cbv beta iota.
  unfold bind at 1. rewrite <- Hport at 1.
  rewrite (read_be_bytes Conn port _ _ (get_set_stream _ _ _)). cbv beta iota.
  rewrite !set_set_stream. fold resp.
  unfold bind at 1. rewrite write_conn_ok by exact Hw. cbv beta iota.
  unfold bind at 1. rewrite write_conn_ok by reflexivity. cbv beta iota.
  unfold bind at 1. rewrite write_conn_ok by reflexivity. cbv beta iota.
  rewrite write_u16s_ok by reflexivity.
  destruct s as [q [[i o w c sh] st hi]]. unfold t. cbn. rewrite <- !app_assoc. reflexivity.
Qed.

(** [Player::handle_legacy_ping] on a well-formed legacy ping: after
    reading the identifier, the ping string, two bytes, the protocol byte,
    the host name and the four port bytes, it writes [0xFF], the UTF-8
    length of the response cut to 16 bits, the fixed header and the
    response's UTF-16 units; the response is built from the configured
    protocol if there is one, else from the client's protocol byte. *)
Theorem legacy_ping_response : forall info id us1 h1 x proto us2 h2 port rest s,
  0 <= proto < 256 ->
  Forall (fun u => 0 <= u < 2 ^ 16) us1 -> (length us1 <= 255)%nat -> from_utf16 us1 = Some h1 ->
  Forall (fun u => 0 <= u < 2 ^ 16) us2 -> (length us2 <= 255)%nat -> from_utf16 us2 = Some h2 ->
  length x = 2%nat -> length port = 4%nat ->
  t_write_ok (connection (st_player s)) = true ->
  get_stream Conn s = bytes ([id] ++ utf16_field us1 ++ x ++ [proto] ++ utf16_field us2 ++ port) ++ rest ->
  let resp := legacy_response info
                (match cfg_protocol (config info) with Some p => p | None => proto end) in
  let t := connection (st_player s) in
  handle_legacy_ping info s
  = (Ok tt, mkSt (st_pkt s) (set_conn (st_player s)
               (mkTransport rest
                  (t_out t ++ [255] ++ be_bytes 2 (to_u16 (rlen resp)) ++ legacy_header
                   ++ flat_map (be_bytes 2) (encode_utf16 resp))
                  true (t_connected t) (t_shut t)))).
Proof. exact legacy_ping_run. Qed.

Lemma legacy_ping_response_witness :
  exists st,
    handle_legacy_ping initial_server_info
      (mkSt [] (Player_new (mkTransport
         (bytes ([250] ++ utf16_field (str "MC|PingHost") ++ [0; 25] ++ [47]
                 ++ utf16_field (str "localhost") ++ [0; 0; 99; 221]))
         [] true true false)))
    = (Ok tt, st).
Proof.
  eexists.
  rewrite <- (app_nil_r (bytes _)).
  apply (legacy_ping_response initial_server_info 250 (str "MC|PingHost") (str "MC|PingHost")
           [0; 25] 47 (str "localhost") (str "localhost") [0; 0; 99; 221] []);
    try (repeat constructor; lia); try (vm_compute; reflexivity); try (simpl; lia).
Defined.

(** [handle_login]: a login start whose name (of 1 to 16 bytes) is not
    valid UTF-8 fails with [Utf8Error] once the name is read; the uuid is not
    read, nothing is written and the socket is not shut down. *)
Theorem login_bad_utf8_name : forall ovf info pl name rest,
  state pl = LOGIN -> (1 <= length name <= 16)%nat -> from_utf8 name = None ->
  handle_packet ovf info
    (mkSt (bytes (0 :: varint_spec_encode (Z.of_nat (length name)) ++ name) ++ rest) pl)
  = (Err Utf8Error, mkSt rest pl).
Proof.
  intros ovf info pl name rest Hst Hl Hu.
  rewrite handle_login_dispatch by exact Hst.
  rewrite bytes_app, <- app_assoc.
  unfold handle_login, decode, bind at 1. decode_known (Z.of_nat (length name)).
  cbv beta iota. cbn [set_stream].
  replace ((Z.of_nat (length name) <=? 0) || (16 <? Z.of_nat (length name)))%bool with false
    by (symmetry; apply orb_false_iff; split; [apply Z.leb_gt | apply Z.ltb_ge]; lia).
  unfold bind at 1. rewrite Nat2Z.id.
  match goal with |- context [read_exact Pkt _ ?s] => rewrite (read_exact_bytes Pkt name rest s eq_refl) end. cbv beta iota. cbn [set_stream st_player].
  unfold bind at 1. rewrite Hu. reflexivity.
Qed.

Lemma login_bad_utf8_name_witness :
  handle_packet false initial_server_info
    (mkSt (bytes [0; 2; 255; 254]) (mkPlayer (mkTransport [] [] true true false) LOGIN None))
  = (Err Utf8Error, mkSt [] (mkPlayer (mkTransport [] [] true true false) LOGIN None)).
Proof.
  rewrite <- (app_nil_r (bytes [0; 2; 255; 254])).
  apply (login_bad_utf8_name false initial_server_info
           (mkPlayer (mkTransport [] [] true true false) LOGIN None) [255; 254] []);
    [reflexivity | simpl; lia | reflexivity].
Defined.

(** [handle_handshake]: a server address that is not valid UTF-8 fails
    with [FromUtf8Error] once it is read; the port and intent are not read
    and the player keeps its state and has no handshake recorded. *)
Theorem handshake_bad_utf8_host : forall ovf info pl proto hb rest,
  state pl = HANDSHAKING -> -2 ^ 31 <= proto < 2 ^ 31 -> Z.of_nat (length hb) < 2 ^ 31 ->
  from_utf8 hb = None ->
  handle_packet ovf info
    (mkSt (bytes (0 :: varint_spec_encode proto ++ varint_spec_encode (Z.of_nat (length hb)) ++ hb)
           ++ rest) pl)
  = (Err FromUtf8Error, mkSt rest pl).
Proof.
  intros ovf info pl proto hb rest Hst Hp Hl Hu.
  change (0 :: ?l) with (varint_spec_encode 0 ++ l).
  rewrite bytes_app, <- app_assoc.
  rewrite handle_packet_pid by lia. cbv beta iota. rewrite Z.eqb_refl.
  unfold handle_status_login, bind at 1, get_player at 1. cbv beta iota.
  cbn [st_player]. rewrite Hst.
  rewrite !bytes_app, <- !app_assoc.
  unfold handle_handshake, decode, bind at 1. decode_known proto. cbv beta iota. cbn [set_stream].
  unfold bind at 1. decode_known (Z.of_nat (length hb)). cbv beta iota. cbn [set_stream].
  rewrite (proj2 (Z.ltb_ge (Z.of_nat (length hb)) 0)) by lia.
  unfold bind at 1. rewrite Nat2Z.id.
  match goal with |- context [read_exact Pkt _ ?s] => rewrite (read_exact_bytes Pkt hb rest s eq_refl) end. cbv beta iota. cbn [set_stream st_player].
  unfold bind at 1. rewrite Hu. reflexivity.
Qed.

Lemma handshake_bad_utf8_host_witness :
  handle_packet true initial_server_info
    (mkSt (bytes [0; 255; 5; 1; 192]) (Player_new (mkTransport [] [] true true false)))
  = (Err FromUtf8Error, mkSt [] (Player_new (mkTransport [] [] true true false))).
Proof.
  rewrite <- (app_nil_r (bytes [0; 255; 5; 1; 192])).
  apply (handshake_bad_utf8_host true initial_server_info (Player_new (mkTransport [] [] true true false))
           767 [192] []); [reflexivity | lia | simpl; lia | reflexivity].
Defined.

(** [send_packet] when the socket write fails: a ping is answered with
    [IOError] of the write's error, and nothing else changes; the payload
    is consumed. *)
Theorem ping_write_failure : forall ovf info payload rest pl,
  length payload = 8%nat -> t_write_ok (connection pl) = false ->
  handle_packet ovf info (mkSt (bytes (1 :: payload) ++ rest) pl)
  = (Err (IOError BrokenPipe), mkSt rest pl).
Proof.
  intros ovf info payload rest pl Hl Hw.
  change (1 :: payload) with (varint_spec_encode 1 ++ payload).
  rewrite bytes_app, <- app_assoc, handle_packet_pid by lia.
  change (1 =? 0) with false. change (1 =? 1) with true. cbv beta iota.
  unfold handle_ping, bind at 1. rewrite <- Hl.
  rewrite (read_be_bytes Pkt payload rest (mkSt (bytes payload ++ rest) pl) eq_refl).
  cbv beta iota. cbn [set_stream].
  rewrite send_packet_ok by (rewrite ?length_be_bytes; simpl; lia).
  unfold write_conn. cbn [st_player st_pkt]. rewrite Hw. reflexivity.
Qed.

Lemma ping_write_failure_witness :
  handle_packet false initial_server_info
    (mkSt (bytes [1; 0; 0; 0; 0; 0; 0; 0; 3]) (mkPlayer (mkTransport [] [] false true false) STATUS None))
  = (Err (IOError BrokenPipe), mkSt [] (mkPlayer (mkTransport [] [] false true false) STATUS None)).
Proof.
  rewrite <- (app_nil_r (bytes [1; 0; 0; 0; 0; 0; 0; 0; 3])).
  apply (ping_write_failure false initial_server_info [0; 0; 0; 0; 0; 0; 0; 3] []
           (mkPlayer (mkTransport [] [] false true false) STATUS None)); reflexivity.
Defined.

(** A legacy server-list ping through [handle_client]: a new connection
    whose input starts with [0xFE 0x01] (read as the frame length 254) and
    carries a well-formed legacy ping, then ends, gets the legacy response
    and is closed normally, still in [HANDSHAKING] with no handshake
    recorded. *)
Theorem legacy_session : forall ovf info id us1 h1 x proto us2 h2 port t,
  0 <= proto < 256 ->
  Forall (fun u => 0 <= u < 2 ^ 16) us1 -> (length us1 <= 255)%nat -> from_utf16 us1 = Some h1 ->
  Forall (fun u => 0 <= u < 2 ^ 16) us2 -> (length us2 <= 255)%nat -> from_utf16 us2 = Some h2 ->
  length x = 2%nat -> length port = 4%nat ->
  t_write_ok t = true ->
  t_in t = bytes ([254; 1; id] ++ utf16_field us1 ++ x ++ [proto] ++ utf16_field us2 ++ port) ->
  let resp := legacy_response info
                (match cfg_protocol (config info) with Some p => p | None => proto end) in
  handle_client ovf info t
  = (ClientOk,
     mkSt [] (mkPlayer
                (mkTransport []
                   (t_out t ++ [255] ++ be_bytes 2 (to_u16 (rlen resp)) ++ legacy_header
                    ++ flat_map (be_bytes 2) (encode_utf16 resp))
                   true (t_connected t) (t_shut t))
                HANDSHAKING None)).
Proof.
  intros ovf info id us1 h1 x proto us2 h2 port t Hp Hu1 Hl1 Hh1 Hu2 Hl2 Hh2 Hx Hport Hw Hin resp.
  assert (Hfuel : exists k, length (t_in t) = S (S k)).
  { exists (length (t_in t) - 2)%nat. rewrite Hin. cbn [app bytes map length]. lia. }
  destruct Hfuel as [k Hk]. unfold handle_client. rewrite Hk. cbn [client_loop].
  assert (Hd : decode_stream ovf Conn (mkSt [] (Player_new t))
               = (Ok 254, set_stream Conn
                            (bytes ([id] ++ utf16_field us1 ++ x ++ [proto] ++ utf16_field us2 ++ port))
                            (mkSt [] (Player_new t)))).
  { apply (decode_spec_encode ovf Conn 254); [lia |]. cbn [get_stream st_player Player_new connection].
    rewrite Hin, <- bytes_app. reflexivity. }
  rewrite (receive_packet_after_length ovf info _ 254 _ Hd).
  change (254 <=? 0) with false. change (256 <? 254) with false. change (254 =? 254) with true.
  cbn [st_player Player_new state state_eqb andb].
  unfold bind at 1.
  rewrite (legacy_ping_run info id us1 h1 x proto us2 h2 port []); try assumption.
  2: { rewrite get_set_stream, app_nil_r. reflexivity. }
  cbv beta iota. unfold ret at 1. fold resp.
  cbn [client_loop st_player st_pkt set_stream set_conn set_in connection t_in t_out t_connected t_shut
       Player_new state handshake_info].
  match goal with
  | |- context [receive_packet ovf info ?s] =>
    rewrite (receive_packet_after_length ovf info s 0 s (decode_stream_eof ovf Conn s eq_refl))
  end.
  reflexivity.
Qed.

Lemma legacy_session_witness :
  exists st,
    handle_client true initial_server_info
      (mkTransport
         (bytes ([254; 1; 250] ++ utf16_field (str "MC|PingHost") ++ [0; 25] ++ [47]
                 ++ utf16_field (str "localhost") ++ [0; 0; 99; 221]))
         [] true true false)
    = (ClientOk, st).
Proof.
  eexists.
  apply (legacy_session true initial_server_info 250 (str "MC|PingHost") (str "MC|PingHost")
           [0; 25] 47 (str "localhost") (str "localhost") [0; 0; 99; 221]);
    try (repeat constructor; lia); try (vm_compute; reflexivity); try (simpl; lia).
Defined.
